(** * MillionBase: the claim registry contract and its client-side view

    The development has two parts.

    - [Token] embeds [contracts/src/MillionBaseToken.sol]: the storage of the
      contract, the transactions [claim] and [ownerClaim], the view
      [isClaimed], and the states the contract can reach.
    - [App] embeds the state of the React component of [src/App.tsx]: the two
      sets [clicked] and [remoteClaimedSet], the [Cell] renderer with its
      fire-and-forget [isClaimed] lookups, and the [claim] click handler. *)

From stdpp Require Import gmap strings list fin_maps fin_sets relations.
From Stdlib Require Import NArith ZArith Lia.

(** ** The token contract *)

Module Token.

Local Open Scope N_scope.

(** Solidity's [uint256] and [address] are unsigned machine integers; both are
    embedded in [N].  [address(0)] is [0]. *)
Abbreviation uint256 := N (only parsing).
Abbreviation address := N (only parsing).

Definition MAX_UINT256 : N := 2 ^ 256 - 1.

(** [uint256 public constant MAX_SUPPLY = 1_000_000]. *)
Definition MAX_SUPPLY : uint256 := 1000000.

(** Storage.  [claimedBy] is the contract's own mapping; a Solidity mapping
    reads [0] at every key that was never written.  [_totalSupply] and
    [_balances] are the storage of the ERC20 base contract, [_owner] the
    storage of Ownable. *)
Record State := mkState {
  claimedBy : gmap N N;
  _totalSupply : N;
  _balances : gmap N N;
  _owner : N
}.

(** Reading [claimedBy[cellIndex]] and [_balances[account]]. *)
Definition claimedBy_at (s : State) (cellIndex : uint256) : address :=
  default 0 (claimedBy s !! cellIndex).

Definition balanceOf (s : State) (account : address) : uint256 :=
  default 0 (_balances s !! account).

Inductive Event :=
  | Transfer (from to value : N)
  | OwnershipTransferred (previousOwner newOwner : N)
  | Claimed (claimer cellIndex : N).

Inductive Error :=
  | Error_ (reason : string)
  | Panic (code : N)
  | ERC20InvalidReceiver (receiver : N)
  | ERC20InsufficientBalance (sender balance needed : N)
  | OwnableInvalidOwner (owner : N)
  | OwnableUnauthorizedAccount (account : N).

(** The three rejections of the registry, by the reason string of their
    [require]. *)
Definition OutOfRange : Error := Error_ "index out of range".
Definition AlreadyClaimed : Error := Error_ "already claimed".
Definition CapReached : Error := Error_ "Max supply reached".

(** A call either returns a value, the new storage and the events it emitted,
    or reverts: a revert carries no storage, the writes made before it are
    lost. *)
Inductive Result (A : Type) :=
  | Ok (ret : A) (s : State) (log : list Event)
  | Revert (e : Error).
Arguments Ok {A} ret s log.
Arguments Revert {A} e.

Definition Tx (A : Type) : Type := State → Result A.

#[global] Instance Tx_ret : MRet Tx := λ A a s, Ok a s [].

#[global] Instance Tx_bind : MBind Tx := λ A B k m s,
  match m s with
  | Ok a s1 l1 =>
      match k a s1 with
      | Ok b s2 l2 => Ok b s2 (l1 ++ l2)
      | Revert e => Revert e
      end
  | Revert e => Revert e
  end.

Definition get {A} (f : State → A) : Tx A := λ s, Ok (f s) s [].
Definition modify (f : State → State) : Tx unit := λ s, Ok tt (f s) [].
Definition revert {A} (e : Error) : Tx A := λ _, Revert e.
Definition emit (e : Event) : Tx unit := λ s, Ok tt s [e].

(** [require(c, reason)]. *)
Definition require (c : bool) (reason : string) : Tx unit :=
  if c then mret tt else revert (Error_ reason).

(** The storage after a transaction: a reverted one leaves it as it was. *)
Definition state_after {A} (s : State) (r : Result A) : State :=
  match r with
  | Ok _ s' _ => s'
  | Revert _ => s
  end.

Definition succeeds {A} (r : Result A) : Prop :=
  match r with
  | Ok _ _ _ => True
  | Revert _ => False
  end.

Definition set_claimedBy (cellIndex : uint256) (a : address) (s : State) : State :=
  mkState (<[cellIndex := a]> (claimedBy s)) (_totalSupply s) (_balances s) (_owner s).

Definition set_totalSupply (v : uint256) (s : State) : State :=
  mkState (claimedBy s) v (_balances s) (_owner s).

Definition set_balance (account : address) (v : uint256) (s : State) : State :=
  mkState (claimedBy s) (_totalSupply s) (<[account := v]> (_balances s)) (_owner s).

Definition set_owner (a : address) (s : State) : State :=
  mkState (claimedBy s) (_totalSupply s) (_balances s) a.

(** *** The inherited OpenZeppelin contracts

    [MillionBaseToken] imports [ERC20] and [Ownable] from OpenZeppelin
    Contracts (lines 4-5; the constructor call [Ownable(msg.sender)] is the
    5.x interface).  The library is a dependency, not a file of the
    repository; the functions the contract calls are written out here as the
    library defines them. *)

(** [ERC20.totalSupply()]. *)
Definition totalSupply : Tx uint256 := get _totalSupply.

(** [ERC20._update(from, to, value)]: the addition to the total supply is
    checked (Solidity 0.8 panics with code 0x11 on overflow), the other
    updates are in [unchecked] blocks. *)
Definition _update (from to value : N) : Tx unit :=
  (if from =? 0 then
     ts ← get _totalSupply;
     if MAX_UINT256 <? ts + value then revert (Panic 17)
     else modify (set_totalSupply (ts + value))
   else
     fromBalance ← get (λ s, balanceOf s from);
     if fromBalance <? value
     then revert (ERC20InsufficientBalance from fromBalance value)
     else modify (set_balance from (fromBalance - value)));;
  (if to =? 0 then
     ts ← get _totalSupply;
     modify (set_totalSupply ((ts + 2 ^ 256 - value) mod 2 ^ 256))
   else
     b ← get (λ s, balanceOf s to);
     modify (set_balance to ((b + value) mod 2 ^ 256)));;
  emit (Transfer from to value).

(** [ERC20._mint(account, value)]: minting to the zero address reverts. *)
Definition _mint (account : address) (value : uint256) : Tx unit :=
  if account =? 0 then revert (ERC20InvalidReceiver 0)
  else _update 0 account value.

(** [Ownable]'s modifier [onlyOwner]. *)
Definition onlyOwner (msg_sender : address) : Tx unit :=
  o ← get _owner;
  if o =? msg_sender then mret tt
  else revert (OwnableUnauthorizedAccount msg_sender).

(** *** MillionBaseToken *)

(** The constructor, run on the zeroed storage of a fresh contract:
    [ERC20("MillionBaseToken", "MBT") Ownable(msg.sender)] with an empty body.
    The name and the symbol are not part of the model. *)
Definition zero_storage : State := mkState ∅ 0 ∅ 0.

Definition constructor (msg_sender : address) : Tx unit :=
  if msg_sender =? 0 then revert (OwnableInvalidOwner 0)
  else modify (set_owner msg_sender);;
       emit (OwnershipTransferred 0 msg_sender).

(** [function claim(uint256 cellIndex) external returns (bool success)]. *)
Definition claim (msg_sender : address) (cellIndex : uint256) : Tx bool :=
  require (cellIndex <? MAX_SUPPLY) "index out of range";;
  c ← get (λ s, claimedBy_at s cellIndex);
  require (c =? 0) "already claimed";;
  ts ← totalSupply;
  require (ts <? MAX_SUPPLY) "Max supply reached";;
  modify (set_claimedBy cellIndex msg_sender);;
  _mint msg_sender 1;;
  emit (Claimed msg_sender cellIndex);;
  mret true.

(** [function isClaimed(uint256 cellIndex) external view returns (bool)]. *)
Definition isClaimed (s : State) (cellIndex : uint256) : bool :=
  negb (claimedBy_at s cellIndex =? 0).

(** [function ownerClaim(address to, uint256 cellIndex) external onlyOwner]. *)
Definition ownerClaim (msg_sender : address) (to : address) (cellIndex : uint256)
  : Tx unit :=
  onlyOwner msg_sender;;
  require (cellIndex <? MAX_SUPPLY) "index out of range";;
  c ← get (λ s, claimedBy_at s cellIndex);
  require (c =? 0) "already claimed";;
  modify (set_claimedBy cellIndex to);;
  _mint to 1.

(** [function decimals() public view virtual override returns (uint8)]. *)
Definition decimals : N := 0.

(** *** Executions

    A step is a successful call of [claim] or [ownerClaim] by any sender with
    any arguments (a reverted call leaves the storage as it is, which is no
    step at all), or a call of one of the entry points inherited from ERC20
    and Ownable ([transfer], [approve], [transferFrom], [transferOwnership],
    [renounceOwnership]).  The inherited entry points are over-approximated:
    they may set the balances and the owner to anything, and write neither
    [claimedBy], which only the two functions above assign, nor
    [_totalSupply], which changes only in [_update] with a zero [from] or
    [to], that is in a mint or a burn. *)
Inductive step : State → State → Prop :=
  | step_claim msg_sender cellIndex s r s' log :
      claim msg_sender cellIndex s = Ok r s' log → step s s'
  | step_ownerClaim msg_sender to cellIndex s r s' log :
      ownerClaim msg_sender to cellIndex s = Ok r s' log → step s s'
  | step_inherited s balances' owner' :
      step s (mkState (claimedBy s) (_totalSupply s) balances' owner').

(** The states of a deployed contract. *)
Definition reachable (s : State) : Prop :=
  ∃ deployer s0 log,
    constructor deployer zero_storage = Ok tt s0 log ∧ rtc step s0 s.

(** The cells with a claimant, and their number. *)
Definition claimedCells (s : State) : gset N :=
  dom (filter (λ kv, kv.2 ≠ 0) (claimedBy s)).

Definition claimedCount (s : State) : N := N.of_nat (size (claimedCells s)).

(** *** The invariant of the registry

    Every entry of [claimedBy] holds a claimant other than [address(0)] at an
    index below [MAX_SUPPLY], and [_totalSupply] counts the entries. *)
Definition registry_inv (s : State) : Prop :=
  (∀ i a, claimedBy s !! i = Some a → a ≠ 0 ∧ i < MAX_SUPPLY) ∧
  _totalSupply s = N.of_nat (size (claimedBy s)).

(** *** A registry with every cell claimed

    [claimed_upto deployer claimer n] is the storage after [claimer] has
    called [claim(0)], ..., [claim(n-1)] on a contract deployed by
    [deployer]. *)
Fixpoint claimed_upto (deployer claimer : address) (n : nat) : State :=
  match n with
  | O => mkState ∅ 0 ∅ deployer
  | S k =>
      let s := claimed_upto deployer claimer k in
      state_after s (claim claimer (N.of_nat k) s)
  end.

Definition sold_out : State := claimed_upto 9 7 (N.to_nat MAX_SUPPLY).

(** A call that wins index [i]: a successful [claim(i)] by any sender, or a
    successful [ownerClaim(to, i)] for any beneficiary. *)
Definition wins (i : uint256) (s s' : State) : Prop :=
  (∃ msg_sender r log, claim msg_sender i s = Ok r s' log) ∨
  (∃ msg_sender to r log, ownerClaim msg_sender to i s = Ok r s' log).

(** *** Executions that only mint

    A mint-only step is a successful [claim] or [ownerClaim]: no token is
    moved by one of the inherited entry points. *)
Inductive mint_step : State → State → Prop :=
  | mint_claim msg_sender cellIndex s r s' log :
      claim msg_sender cellIndex s = Ok r s' log → mint_step s s'
  | mint_ownerClaim msg_sender to cellIndex s r s' log :
      ownerClaim msg_sender to cellIndex s = Ok r s' log → mint_step s s'.

Definition minted (s : State) : Prop :=
  ∃ deployer s0 log,
    constructor deployer zero_storage = Ok tt s0 log ∧ rtc mint_step s0 s.

(** The number of cells whose claimant is [a]. *)
Definition cellsOf (s : State) (a : address) : N :=
  N.of_nat (size (filter (λ kv, kv.2 = a) (claimedBy s))).

End Token.

(** ** The client: the React component [App] *)

Module App.

Local Open Scope Z_scope.

(** The [ethers.Contract] instances of the file: the module-level
    [readContract] on the read-only provider, and the instance [connectWallet]
    builds on the signer of the connected account. *)
Inductive Contract :=
  | readContract
  | walletContract (signer : string).

(** Every JavaScript object is truthy. *)
Definition truthy (c : Contract) : bool := true.

(** Where a running [claim] handler is suspended. *)
Inductive claim_await :=
  | await_claim          (* [await contract.claim(cellIndex)] *)
  | await_wait           (* [await tx.wait()] *)
  | await_refreshSupply. (* [await refreshSupply()] *)

#[global] Instance claim_await_eq_dec : EqDecision claim_await.
Proof. solve_decision. Defined.

(** The state of a session: the [useState] cells of the component (the unused
    [_provider] and [_signer] are left out), and what is outstanding in the
    event loop: the [isClaimed] promises not yet settled, one entry per query,
    the suspended [claim] handlers, and the messages shown by [alert]. Cell
    indices are JavaScript numbers with integer values. *)
Record Session := mkSession {
  contract : option Contract;
  account : option string;
  totalSupply : Z;
  maxSupply : Z;
  txPending : bool;
  clicked : gset Z;
  viewportWidth : Z;
  remoteClaimedSet : gset Z;
  lookups : list Z;
  handlers : list (Z * claim_await);
  alerts : list string
}.

(** The first render, in a window of the given inner width. *)
Definition initial (innerWidth : Z) : Session :=
  mkSession None None 0 1000000 false ∅ innerWidth ∅ [] [] [].

(** The state setters. *)
Definition setContract (c : Contract) (st : Session) : Session :=
  mkSession (Some c) (account st) (totalSupply st) (maxSupply st) (txPending st)
    (clicked st) (viewportWidth st) (remoteClaimedSet st) (lookups st)
    (handlers st) (alerts st).

Definition setAccount (a : string) (st : Session) : Session :=
  mkSession (contract st) (Some a) (totalSupply st) (maxSupply st) (txPending st)
    (clicked st) (viewportWidth st) (remoteClaimedSet st) (lookups st)
    (handlers st) (alerts st).

Definition setTotalSupply (n : Z) (st : Session) : Session :=
  mkSession (contract st) (account st) n (maxSupply st) (txPending st)
    (clicked st) (viewportWidth st) (remoteClaimedSet st) (lookups st)
    (handlers st) (alerts st).

Definition setMaxSupply (n : Z) (st : Session) : Session :=
  mkSession (contract st) (account st) (totalSupply st) n (txPending st)
    (clicked st) (viewportWidth st) (remoteClaimedSet st) (lookups st)
    (handlers st) (alerts st).

Definition setTxPending (b : bool) (st : Session) : Session :=
  mkSession (contract st) (account st) (totalSupply st) (maxSupply st) b
    (clicked st) (viewportWidth st) (remoteClaimedSet st) (lookups st)
    (handlers st) (alerts st).

Definition setClicked (f : gset Z → gset Z) (st : Session) : Session :=
  mkSession (contract st) (account st) (totalSupply st) (maxSupply st)
    (txPending st) (f (clicked st)) (viewportWidth st) (remoteClaimedSet st)
    (lookups st) (handlers st) (alerts st).

Definition setViewportWidth (w : Z) (st : Session) : Session :=
  mkSession (contract st) (account st) (totalSupply st) (maxSupply st)
    (txPending st) (clicked st) w (remoteClaimedSet st) (lookups st)
    (handlers st) (alerts st).

Definition setRemoteClaimedSet (f : gset Z → gset Z) (st : Session) : Session :=
  mkSession (contract st) (account st) (totalSupply st) (maxSupply st)
    (txPending st) (clicked st) (viewportWidth st) (f (remoteClaimedSet st))
    (lookups st) (handlers st) (alerts st).

(** The event loop. *)
Definition set_lookups (l : list Z) (st : Session) : Session :=
  mkSession (contract st) (account st) (totalSupply st) (maxSupply st)
    (txPending st) (clicked st) (viewportWidth st) (remoteClaimedSet st) l
    (handlers st) (alerts st).

Definition set_handlers (l : list (Z * claim_await)) (st : Session) : Session :=
  mkSession (contract st) (account st) (totalSupply st) (maxSupply st)
    (txPending st) (clicked st) (viewportWidth st) (remoteClaimedSet st)
    (lookups st) l (alerts st).

Definition alert (message : string) (st : Session) : Session :=
  mkSession (contract st) (account st) (totalSupply st) (maxSupply st)
    (txPending st) (clicked st) (viewportWidth st) (remoteClaimedSet st)
    (lookups st) (handlers st) (alerts st ++ [message]).

(** Removing one outstanding entry; [None] when there is none. *)
Fixpoint settle {A} `{EqDecision A} (x : A) (l : list A) : option (list A) :=
  match l with
  | [] => None
  | y :: l' => if decide (x = y) then Some l' else (y ::.) <$> settle x l'
  end.

(** The number of outstanding [isClaimed] queries for an index. *)
Definition outstanding (cellIndex : Z) (st : Session) : nat :=
  length (filter (λ i, i = cellIndex) (lookups st)).

(** [const columns = Math.floor((viewportWidth - 32) / columnWidth) || 1]
    with [columnWidth = 24]. *)
Definition columnWidth : Z := 24.

Definition columns (st : Session) : Z :=
  let c := (viewportWidth st - 32) `div` columnWidth in
  if c =? 0 then 1 else c.

(** [isRemoteClaimed || clicked.has(cellIndex)]: the presentation view of a
    cell. *)
Definition isClicked (st : Session) (cellIndex : Z) : bool :=
  bool_decide (cellIndex ∈ remoteClaimedSet st)
  || bool_decide (cellIndex ∈ clicked st).

(** The renderer [Cell]: [None] is the [null] returned for an index of
    1,000,000 or more; otherwise the cell is drawn with [isClicked], after an
    [isClaimed] query has been fired for an index that is not in
    [remoteClaimedSet]. *)
Definition Cell (columnIndex rowIndex : Z) (st : Session) : option bool * Session :=
  let cellIndex := rowIndex * columns st + columnIndex in
  if 1000000 <=? cellIndex then (None, st)
  else
    let isRemoteClaimed := bool_decide (cellIndex ∈ remoteClaimedSet st) in
    let queryFrom := default readContract (contract st) in
    let st' :=
      if negb isRemoteClaimed && truthy queryFrom
      then set_lookups (lookups st ++ [cellIndex]) st
      else st in
    let isClicked := isRemoteClaimed || bool_decide (cellIndex ∈ clicked st) in
    (Some isClicked, st').

(** The callbacks of the query: [.then((claimed) => ...)] and
    [.catch(() => {})]. *)
Definition isClaimed_then (cellIndex : Z) (claimed : bool) (st : Session) : Session :=
  if claimed then setRemoteClaimedSet (λ prev, {[cellIndex]} ∪ prev) st else st.

Definition isClaimed_catch (st : Session) : Session := st.

(** [refreshSupply], once both reads have resolved; [supply] and [max] are
    the values after [Number(...)]. *)
Definition refreshSupply_done (supply max : Z) (st : Session) : Session :=
  setMaxSupply max (setTotalSupply supply st).

(** The handler [claim], cut at its [await]s.  [claim_start] runs up to the
    first one: the guard [if (!contract || txPending) return], then
    [setTxPending(true)] and the call [contract.claim(cellIndex)]; the guard
    reads the state of the latest render.  [claim_finish] is the rest of the
    [try] block once [refreshSupply()] has resolved, followed by [finally];
    [claim_catch] is the [catch] block followed by [finally]. *)
Definition claim_start (cellIndex : Z) (st : Session) : Session :=
  match contract st with
  | None => st
  | Some _ =>
      if txPending st then st
      else set_handlers (handlers st ++ [(cellIndex, await_claim)])
             (setTxPending true st)
  end.

Definition claim_finish (cellIndex : Z) (supply max : Z) (st : Session) : Session :=
  setTxPending false
    (setClicked (λ prev, {[cellIndex]} ∪ prev) (refreshSupply_done supply max st)).

Definition claim_catch (message : string) (st : Session) : Session :=
  setTxPending false (alert message st).

(** What can happen in a session. *)
Inductive event :=
  | Resize (innerWidth : Z)
  | WalletConnected (addr : string)
  | SupplyRefreshed (supply max : Z)
  | Render (columnIndex rowIndex : Z)
  | LookupResolved (cellIndex : Z) (claimed : bool)
  | LookupRejected (cellIndex : Z)
  | Click (cellIndex : Z)
  | ClaimSent (cellIndex : Z)
  | ClaimMined (cellIndex : Z)
  | ClaimRefreshed (cellIndex : Z) (supply max : Z)
  | ClaimThrew (cellIndex : Z) (at_ : claim_await) (message : string).

(** Resuming the handler suspended for [cellIndex] at [at_]; nothing happens
    when there is no such handler. *)
Definition resume (cellIndex : Z) (at_ : claim_await)
    (k : list (Z * claim_await) → Session → Session) (st : Session) : Session :=
  match settle (cellIndex, at_) (handlers st) with
  | None => st
  | Some rest => k rest st
  end.

Definition step (e : event) (st : Session) : Session :=
  match e with
  | Resize w => setViewportWidth w st
  | WalletConnected addr => setContract (walletContract addr) (setAccount addr st)
  | SupplyRefreshed supply max => refreshSupply_done supply max st
  | Render columnIndex rowIndex => (Cell columnIndex rowIndex st).2
  | LookupResolved cellIndex claimed =>
      match settle cellIndex (lookups st) with
      | None => st
      | Some rest => isClaimed_then cellIndex claimed (set_lookups rest st)
      end
  | LookupRejected cellIndex =>
      match settle cellIndex (lookups st) with
      | None => st
      | Some rest => isClaimed_catch (set_lookups rest st)
      end
  | Click cellIndex => claim_start cellIndex st
  | ClaimSent cellIndex =>
      resume cellIndex await_claim
        (λ rest, set_handlers (rest ++ [(cellIndex, await_wait)])) st
  | ClaimMined cellIndex =>
      resume cellIndex await_wait
        (λ rest, set_handlers (rest ++ [(cellIndex, await_refreshSupply)])) st
  | ClaimRefreshed cellIndex supply max =>
      resume cellIndex await_refreshSupply
        (λ rest st, claim_finish cellIndex supply max (set_handlers rest st)) st
  | ClaimThrew cellIndex at_ message =>
      resume cellIndex at_
        (λ rest st, claim_catch message (set_handlers rest st)) st
  end.

Definition run (evs : list event) (st : Session) : Session :=
  foldl (λ st e, step e st) st evs.

(** [const rowCount = Math.ceil(1_000_000 / columns)].  The quotient of the
    two integers is rounded up; at the sizes a window can have the floating
    point division does not move the quotient across an integer, so this is
    the exact ceiling. *)
Definition rowCount (st : Session) : Z := - ((- 1000000) `div` columns st).

(** *** Connecting the wallet

    [connectWallet] awaits up to five answers: the first
    [wallet_switchEthereumChain] request, after an error with code 4902 the
    [wallet_addEthereumChain] request and a second switch, then
    [eth_requestAccounts] and [getSigner()].  An answer either resolves or
    rejects with an error whose [code] may be absent. *)
Inductive answer (A : Type) :=
  | resolves (a : A)
  | rejects (code : option Z).
Arguments resolves {A} a.
Arguments rejects {A} code.

Record wallet := mkWallet {
  switchChain : answer unit;
  addChain : answer unit;
  switchChainAgain : answer unit;
  requestAccounts : answer (list string);
  getSigner : answer string
}.

Inductive request :=
  | wallet_switchEthereumChain
  | wallet_addEthereumChain
  | eth_requestAccounts.

(** What a run of [connectWallet] leaves: the requests it sent, in order, the
    error it threw if any, and the state. *)
Record connected := mkConnected {
  requests : list request;
  thrown : option (option Z);
  session : Session
}.

(** [const [addr] = ...; setAccount(addr)]: the first account, [undefined]
    when the list is empty. *)
Definition setAccount_first (accounts : list string) (st : Session) : Session :=
  mkSession (contract st) (head accounts) (totalSupply st) (maxSupply st)
    (txPending st) (clicked st) (viewportWidth st) (remoteClaimedSet st)
    (lookups st) (handlers st) (alerts st).

(** The part of [connectWallet] after the [try]/[catch]. *)
Definition connectWallet_accounts (w : wallet) (sent : list request)
    (st : Session) : connected :=
  let sent := sent ++ [eth_requestAccounts] in
  match requestAccounts w with
  | rejects err => mkConnected sent (Some err) st
  | resolves accounts =>
      let st := setAccount_first accounts st in
      match getSigner w with
      | rejects err => mkConnected sent (Some err) st
      | resolves s => mkConnected sent None (setContract (walletContract s) st)
      end
  end.

Definition connectWallet (w : wallet) (st : Session) : connected :=
  match switchChain w with
  | resolves _ => connectWallet_accounts w [wallet_switchEthereumChain] st
  | rejects code =>
      if decide (code = Some 4902) then
        match addChain w with
        | rejects err =>
            mkConnected [wallet_switchEthereumChain; wallet_addEthereumChain]
              (Some err) st
        | resolves _ =>
            match switchChainAgain w with
            | rejects err =>
                mkConnected [wallet_switchEthereumChain; wallet_addEthereumChain;
                             wallet_switchEthereumChain] (Some err) st
            | resolves _ =>
                connectWallet_accounts w
                  [wallet_switchEthereumChain; wallet_addEthereumChain;
                   wallet_switchEthereumChain] st
            end
        end
      else mkConnected [wallet_switchEthereumChain] (Some code) st
  end.

(** The chain is Base Sepolia: the first switch resolved, or it failed with
    code 4902 and both the request to add the chain and the second switch
    resolved. *)
Definition chain_switched (w : wallet) : Prop :=
  (∃ u, switchChain w = resolves u) ∨
  (switchChain w = rejects (Some 4902) ∧ (∃ u, addChain w = resolves u) ∧
   ∃ u, switchChainAgain w = resolves u).

(** *** Invariants of a session *)

(** The handler discipline: no handler and [txPending] false, or one handler,
    [txPending] true and a contract to send the transaction with. *)
Definition one_handler (st : Session) : Prop :=
  (handlers st = [] ∧ txPending st = false) ∨
  (∃ h, handlers st = [h] ∧ txPending st = true ∧ is_Some (contract st)).

(** What the history of a session says about its state. *)
Definition backed (evs : list event) (st : Session) : Prop :=
  (∀ i, i ∈ remoteClaimedSet st →
     i < 1000000 ∧ LookupResolved i true ∈ evs) ∧
  (∀ i, i ∈ lookups st → i < 1000000) ∧
  (∀ i, i ∈ clicked st →
     ClaimMined i ∈ evs ∧ ∃ supply max, ClaimRefreshed i supply max ∈ evs) ∧
  (∀ i, (i, await_refreshSupply) ∈ handlers st → ClaimMined i ∈ evs).

End App.

(** ** Properties of the token contract *)

Module TokenSpec.

Import Token.
Local Open Scope N_scope.

Example claim_fresh :
  claim 7 5 (mkState ∅ 0 ∅ 9)
  = Ok true (mkState {[5 := 7]} 1 {[7 := 1]} 9) [Transfer 0 7 1; Claimed 7 5].
Proof. vm_compute. reflexivity. Qed.

Example constructor_run :
  constructor 9 zero_storage = Ok tt (mkState ∅ 0 ∅ 9) [OwnershipTransferred 0 9].
Proof. vm_compute. reflexivity. Qed.

Example ownerClaim_not_owner :
  ownerClaim 7 7 5 (mkState ∅ 0 ∅ 9) = Revert (OwnableUnauthorizedAccount 7).
Proof. vm_compute. reflexivity. Qed.

(** *** What the two transactions compute *)

Ltac tx_step :=
  unfold mbind, mret, Tx_bind, Tx_ret, get, modify, emit, revert, require,
    totalSupply;
  cbn [_totalSupply claimedBy _balances _owner set_claimedBy set_totalSupply
       set_balance set_owner app negb].

Lemma claim_unfold msg_sender cellIndex s :
  claim msg_sender cellIndex s =
    if negb (cellIndex <? MAX_SUPPLY) then Revert OutOfRange
    else if negb (claimedBy_at s cellIndex =? 0) then Revert AlreadyClaimed
    else if negb (_totalSupply s <? MAX_SUPPLY) then Revert CapReached
    else if msg_sender =? 0 then Revert (ERC20InvalidReceiver 0)
    else Ok true
           (mkState (<[cellIndex := msg_sender]> (claimedBy s))
                    (_totalSupply s + 1)
                    (<[msg_sender := (balanceOf s msg_sender + 1) mod 2 ^ 256]>
                       (_balances s))
                    (_owner s))
           [Transfer 0 msg_sender 1; Claimed msg_sender cellIndex].
Proof.
  unfold claim, _mint, _update. change (0 =? 0) with true. tx_step.
  destruct (cellIndex <? MAX_SUPPLY); tx_step; [|reflexivity].
  destruct (claimedBy_at s cellIndex =? 0); tx_step; [|reflexivity].
  destruct (_totalSupply s <? MAX_SUPPLY) eqn:Hts; tx_step; [|reflexivity].
  destruct (msg_sender =? 0) eqn:Hs; tx_step; [reflexivity|].
  apply N.ltb_lt in Hts.
  assert ((MAX_UINT256 <? _totalSupply s + 1) = false) as ->.
  { apply N.ltb_ge. unfold MAX_UINT256, MAX_SUPPLY in *. lia. }
  tx_step. reflexivity.
Qed.

Lemma ownerClaim_unfold msg_sender to cellIndex s :
  ownerClaim msg_sender to cellIndex s =
    if negb (_owner s =? msg_sender)
    then Revert (OwnableUnauthorizedAccount msg_sender)
    else if negb (cellIndex <? MAX_SUPPLY) then Revert OutOfRange
    else if negb (claimedBy_at s cellIndex =? 0) then Revert AlreadyClaimed
    else if to =? 0 then Revert (ERC20InvalidReceiver 0)
    else if MAX_UINT256 <? _totalSupply s + 1 then Revert (Panic 17)
    else Ok tt
           (mkState (<[cellIndex := to]> (claimedBy s))
                    (_totalSupply s + 1)
                    (<[to := (balanceOf s to + 1) mod 2 ^ 256]> (_balances s))
                    (_owner s))
           [Transfer 0 to 1].
Proof.
  unfold ownerClaim, onlyOwner, _mint, _update. change (0 =? 0) with true.
  tx_step.
  destruct (_owner s =? msg_sender); tx_step; [|reflexivity].
  destruct (cellIndex <? MAX_SUPPLY); tx_step; [|reflexivity].
  destruct (claimedBy_at s cellIndex =? 0); tx_step; [|reflexivity].
  destruct (to =? 0) eqn:Hs; tx_step; [reflexivity|].
  destruct (MAX_UINT256 <? _totalSupply s + 1); tx_step; reflexivity.
Qed.

(** Case analysis on a successful call. *)
Lemma claim_Ok msg_sender cellIndex s r s' log :
  claim msg_sender cellIndex s = Ok r s' log →
  cellIndex < MAX_SUPPLY ∧ claimedBy_at s cellIndex = 0 ∧
  _totalSupply s < MAX_SUPPLY ∧ msg_sender ≠ 0 ∧ r = true ∧
  s' = mkState (<[cellIndex := msg_sender]> (claimedBy s)) (_totalSupply s + 1)
         (<[msg_sender := (balanceOf s msg_sender + 1) mod 2 ^ 256]> (_balances s))
         (_owner s) ∧
  log = [Transfer 0 msg_sender 1; Claimed msg_sender cellIndex].
Proof.
  rewrite claim_unfold.
  destruct (N.ltb_spec cellIndex MAX_SUPPLY); [|discriminate].
  destruct (N.eqb_spec (claimedBy_at s cellIndex) 0); [|discriminate].
  destruct (N.ltb_spec (_totalSupply s) MAX_SUPPLY); [|discriminate].
  destruct (N.eqb_spec msg_sender 0); [discriminate|].
  cbn [negb]. intros [= <- <- <-]. auto 10.
Qed.

Lemma ownerClaim_Ok msg_sender to cellIndex s r s' log :
  ownerClaim msg_sender to cellIndex s = Ok r s' log →
  _owner s = msg_sender ∧ cellIndex < MAX_SUPPLY ∧
  claimedBy_at s cellIndex = 0 ∧ to ≠ 0 ∧
  s' = mkState (<[cellIndex := to]> (claimedBy s)) (_totalSupply s + 1)
         (<[to := (balanceOf s to + 1) mod 2 ^ 256]> (_balances s)) (_owner s) ∧
  log = [Transfer 0 to 1].
Proof.
  rewrite ownerClaim_unfold.
  destruct (N.eqb_spec (_owner s) msg_sender); [|discriminate].
  destruct (N.ltb_spec cellIndex MAX_SUPPLY); [|discriminate].
  destruct (N.eqb_spec (claimedBy_at s cellIndex) 0); [|discriminate].
  destruct (N.eqb_spec to 0); [discriminate|].
  destruct (MAX_UINT256 <? _totalSupply s + 1); [discriminate|].
  cbn [negb]. intros [= <- <- <-]. auto 10.
Qed.

(** *** A claimant, once written, stays *)

Lemma claimedBy_at_insert s i j a b o t :
  claimedBy_at (mkState (<[i := a]> (claimedBy s)) t b o) j
  = if decide (i = j) then a else claimedBy_at s j.
Proof.
  unfold claimedBy_at. cbn [claimedBy]. rewrite lookup_insert.
  by case_decide.
Qed.

Lemma step_claimedBy_at s s' i :
  step s s' → claimedBy_at s i ≠ 0 → claimedBy_at s' i = claimedBy_at s i.
Proof.
  intros Hstep Hi. destruct Hstep as [a j s r s' log H|a to j s r s' log H|s b o].
  - apply claim_Ok in H as (_ & Hfree & _ & _ & _ & -> & _).
    rewrite claimedBy_at_insert. case_decide; congruence.
  - apply ownerClaim_Ok in H as (_ & _ & Hfree & _ & -> & _).
    rewrite claimedBy_at_insert. case_decide; congruence.
  - reflexivity.
Qed.

Lemma steps_claimedBy_at s s' i :
  rtc step s s' → claimedBy_at s i ≠ 0 → claimedBy_at s' i = claimedBy_at s i.
Proof.
  induction 1 as [|s s1 s2 Hstep _ IH]; [done|].
  intros Hi. pose proof (step_claimedBy_at _ _ i Hstep Hi) as E.
  rewrite IH; congruence.
Qed.

Lemma inv_free s i :
  registry_inv s → claimedBy_at s i = 0 → claimedBy s !! i = None.
Proof.
  intros [Hent _]. unfold claimedBy_at.
  destruct (claimedBy s !! i) as [a|] eqn:E; [|done].
  cbn. intros ->. by destruct (Hent _ _ E).
Qed.

Lemma inv_taken s i :
  registry_inv s → claimedBy_at s i ≠ 0 → i < MAX_SUPPLY.
Proof.
  intros [Hent _]. unfold claimedBy_at.
  destruct (claimedBy s !! i) as [a|] eqn:E; [|done].
  intros _. by destruct (Hent _ _ E).
Qed.

Lemma inv_insert s i a bal own :
  registry_inv s → i < MAX_SUPPLY → a ≠ 0 → claimedBy_at s i = 0 →
  registry_inv (mkState (<[i := a]> (claimedBy s)) (_totalSupply s + 1) bal own).
Proof.
  intros Hinv Hi Ha Hfree. pose proof (inv_free _ _ Hinv Hfree) as Hnone.
  destruct Hinv as [Hent Hsz]. split; cbn [claimedBy _totalSupply].
  - intros j b. rewrite lookup_insert. case_decide; [|by apply Hent].
    intros [= <-]. by subst.
  - rewrite map_size_insert_None by done. lia.
Qed.

Lemma inv_step s s' : step s s' → registry_inv s → registry_inv s'.
Proof.
  intros Hstep Hinv.
  destruct Hstep as [a j s r s' log H|a to j s r s' log H|s b o].
  - apply claim_Ok in H as (? & ? & _ & ? & _ & -> & _). by apply inv_insert.
  - apply ownerClaim_Ok in H as (_ & ? & ? & ? & -> & _). by apply inv_insert.
  - exact Hinv.
Qed.

Lemma constructor_Ok deployer s0 log :
  constructor deployer zero_storage = Ok tt s0 log →
  deployer ≠ 0 ∧ s0 = mkState ∅ 0 ∅ deployer.
Proof.
  unfold constructor. destruct (N.eqb_spec deployer 0); [discriminate|].
  tx_step. by intros [= <- _].
Qed.

Lemma inv_steps s s' : rtc step s s' → registry_inv s → registry_inv s'.
Proof. induction 1; eauto using inv_step. Qed.

Lemma inv_reachable s : reachable s → registry_inv s.
Proof.
  intros (d & s0 & log & Hc & Hsteps).
  apply constructor_Ok in Hc as [_ ->].
  apply (inv_steps _ _ Hsteps).
  split; cbn [claimedBy _totalSupply]; [|done].
  intros i a. by rewrite lookup_empty.
Qed.

Lemma reachable_step s s' : reachable s → step s s' → reachable s'.
Proof.
  intros (d & s0 & log & Hc & Hsteps) Hstep.
  exists d, s0, log. split; [done|]. by eapply rtc_r.
Qed.

Lemma reachable_steps s s' : reachable s → rtc step s s' → reachable s'.
Proof. induction 2; eauto using reachable_step. Qed.

(** [claimedCells] holds the indices that read a claimant other than
    [address(0)], those for which [isClaimed] answers [true]. *)
Lemma elem_of_claimedCells s i :
  i ∈ claimedCells s ↔ claimedBy_at s i ≠ 0.
Proof.
  unfold claimedCells, claimedBy_at. rewrite elem_of_dom.
  unfold is_Some. setoid_rewrite map_lookup_filter_Some. cbn.
  destruct (claimedBy s !! i) as [a|]; cbn.
  - split; [by intros (x & [= <-] & Hx)|]. intros Ha. by exists a.
  - split; [by intros (x & [=] & _)|done].
Qed.

Lemma isClaimed_claimedCells s i :
  isClaimed s i = true ↔ i ∈ claimedCells s.
Proof.
  rewrite elem_of_claimedCells. unfold isClaimed.
  by destruct (N.eqb_spec (claimedBy_at s i) 0).
Qed.

(** Under the invariant, the cells with a claimant are the keys of the map. *)
Lemma inv_claimedCells s : registry_inv s → claimedCells s = dom (claimedBy s).
Proof.
  intros [Hent _]. unfold claimedCells. f_equal.
  apply map_filter_id. intros i a E. cbn. by destruct (Hent _ _ E).
Qed.

Lemma inv_claimedCount s : registry_inv s → claimedCount s = _totalSupply s.
Proof.
  intros Hinv. unfold claimedCount. rewrite (inv_claimedCells _ Hinv).
  rewrite size_dom. by destruct Hinv as [_ ->].
Qed.

(** A set of indices below [n] has at most [n] members. *)
Lemma size_below (X : gset N) (n : nat) :
  (∀ x, x ∈ X → x < N.of_nat n) → (size X ≤ n)%nat.
Proof.
  intros Hlt.
  assert (X ⊆ list_to_set (N.of_nat <$> seq 0 n)) as Hsub.
  { intros x Hx. apply elem_of_list_to_set, list_elem_of_fmap.
    exists (N.to_nat x). split; [lia|].
    apply elem_of_seq. specialize (Hlt _ Hx). lia. }
  apply subseteq_size in Hsub. rewrite size_list_to_set in Hsub.
  - by rewrite length_fmap, length_seq in Hsub.
  - apply NoDup_fmap_2; [|apply NoDup_seq]. intros x y. lia.
Qed.

Lemma inv_cap s : registry_inv s → _totalSupply s ≤ MAX_SUPPLY.
Proof.
  intros [Hent ->]. rewrite <- size_dom.
  pose proof (size_below (dom (claimedBy s)) (N.to_nat MAX_SUPPLY)) as Hle.
  rewrite N2Nat.id in Hle.
  assert (size (dom (claimedBy s)) ≤ N.to_nat MAX_SUPPLY)%nat; [|lia].
  apply Hle. intros x [a E]%elem_of_dom. by destruct (Hent _ _ E).
Qed.

(** With a free cell below [MAX_SUPPLY] left, the count is below the cap. *)
Lemma inv_room s i :
  registry_inv s → i < MAX_SUPPLY → claimedBy_at s i = 0 →
  _totalSupply s < MAX_SUPPLY.
Proof.
  intros Hinv Hi Hfree.
  pose proof (inv_insert s i 1 ∅ 0 Hinv Hi ltac:(lia) Hfree) as Hinv'.
  apply inv_cap in Hinv'. cbn [_totalSupply] in Hinv'. lia.
Qed.

Example claimed_upto_2 :
  claimed_upto 9 7 2 = mkState {[0 := 7; 1 := 7]} 2 {[7 := 2]} 9.
Proof. vm_compute. reflexivity. Qed.

Lemma claimed_upto_spec deployer claimer n :
  deployer ≠ 0 → claimer ≠ 0 → N.of_nat n ≤ MAX_SUPPLY →
  let s := claimed_upto deployer claimer n in
  reachable s ∧ _totalSupply s = N.of_nat n ∧
  ∀ i, claimedBy_at s i = if decide (i < N.of_nat n) then claimer else 0.
Proof.
  intros Hd Hc. induction n as [|k IH]; intros Hle s.
  - subst s. cbn [claimed_upto]. split; [|split; [done|]].
    + exists deployer, (mkState ∅ 0 ∅ deployer), [OwnershipTransferred 0 deployer].
      split; [|apply rtc_refl].
      unfold constructor. destruct (N.eqb_spec deployer 0); [done|].
      by tx_step.
    + intros i. case_decide; [lia|]. unfold claimedBy_at. cbn [claimedBy].
      by rewrite lookup_empty.
  - destruct IH as (Hreach & Hts & Hcells); [lia|].
    subst s. cbn [claimed_upto].
    set (s := claimed_upto deployer claimer k) in *.
    pose proof (Hcells (N.of_nat k)) as Hfree.
    rewrite decide_False in Hfree by lia.
    assert (claim claimer (N.of_nat k) s
            = Ok true
                (mkState (<[N.of_nat k := claimer]> (claimedBy s))
                   (_totalSupply s + 1)
                   (<[claimer := (balanceOf s claimer + 1) mod 2 ^ 256]>
                      (_balances s)) (_owner s))
                [Transfer 0 claimer 1; Claimed claimer (N.of_nat k)]) as Hclaim.
    { rewrite claim_unfold.
      destruct (N.ltb_spec (N.of_nat k) MAX_SUPPLY); [|lia].
      rewrite Hfree. change (0 =? 0) with true.
      destruct (N.ltb_spec (_totalSupply s) MAX_SUPPLY); [|lia].
      by destruct (N.eqb_spec claimer 0). }
    rewrite Hclaim. cbn [state_after]. split; [|split].
    + eapply reachable_step; [done|]. by eapply step_claim.
    + cbn [_totalSupply]. lia.
    + intros i. rewrite claimedBy_at_insert, Hcells.
      repeat case_decide; done || lia.
Qed.

Lemma sold_out_spec :
  reachable sold_out ∧ _totalSupply sold_out = MAX_SUPPLY ∧
  ∀ i, claimedBy_at sold_out i = if decide (i < MAX_SUPPLY) then 7 else 0.
Proof.
  pose proof (claimed_upto_spec 9 7 (N.to_nat MAX_SUPPLY)) as H.
  rewrite N2Nat.id in H. apply H; done.
Qed.

(** *** Properties of the registry *)

(** C1. Once a [claim(i)] or an [ownerClaim] for [i] has succeeded, then in
    every later state of the execution [claimedBy[i]] is non-empty (and still
    the winner's address, so [isClaimed(i)] is true), and every [claim(i)] and
    every [ownerClaim] for [i], by any sender, reverts: index [i] is won at
    most once. *)
Theorem claim_wins_at_most_once (i : uint256) (s s1 s2 : State) :
  wins i s s1 → rtc step s1 s2 →
  claimedBy_at s1 i ≠ 0 ∧
  claimedBy_at s2 i = claimedBy_at s1 i ∧
  isClaimed s2 i = true ∧
  (∀ msg_sender, ¬ succeeds (claim msg_sender i s2)) ∧
  (∀ msg_sender to, ¬ succeeds (ownerClaim msg_sender to i s2)).
Proof.
  intros Hwin Hsteps.
  assert (claimedBy_at s1 i ≠ 0) as H1.
  { destruct Hwin as [(a & r & log & H)|(a & to & r & log & H)].
    - apply claim_Ok in H as (_ & _ & _ & ? & _ & -> & _).
      rewrite claimedBy_at_insert. by rewrite decide_True.
    - apply ownerClaim_Ok in H as (_ & _ & _ & ? & -> & _).
      rewrite claimedBy_at_insert. by rewrite decide_True. }
  pose proof (steps_claimedBy_at _ _ i Hsteps H1) as H2.
  assert (claimedBy_at s2 i ≠ 0) as H3 by congruence.
  split_and!; [done|done| | |].
  - unfold isClaimed. by destruct (N.eqb_spec (claimedBy_at s2 i) 0).
  - intros a. destruct (claim a i s2) as [r s' log|e] eqn:H; [|by intros []].
    by apply claim_Ok in H as (_ & ? & _).
  - intros a to.
    destruct (ownerClaim a to i s2) as [r s' log|e] eqn:H; [|by intros []].
    by apply ownerClaim_Ok in H as (_ & _ & ? & _).
Qed.

Lemma claim_wins_at_most_once_witness :
  let s := mkState ∅ 0 ∅ 9 in
  let s1 := mkState {[5 := 7]} 1 {[7 := 1]} 9 in
  let s2 := mkState {[5 := 7; 6 := 8]} 2 {[7 := 1; 8 := 1]} 9 in
  wins 5 s s1 ∧ rtc step s1 s2 ∧
  claimedBy_at s1 5 ≠ 0 ∧
  claimedBy_at s2 5 = claimedBy_at s1 5 ∧
  isClaimed s2 5 = true ∧
  (∀ msg_sender, ¬ succeeds (claim msg_sender 5 s2)) ∧
  (∀ msg_sender to, ¬ succeeds (ownerClaim msg_sender to 5 s2)).
Proof.
  intros s s1 s2.
  assert (wins 5 s s1) as Hwin.
  { left. exists 7, true, [Transfer 0 7 1; Claimed 7 5]. vm_compute. reflexivity. }
  assert (rtc step s1 s2) as Hsteps.
  { apply rtc_once. apply (step_ownerClaim 9 8 6 s1 tt s2 [Transfer 0 8 1]).
    vm_compute. reflexivity. }
  split; [exact Hwin|]. split; [exact Hsteps|].
  exact (claim_wins_at_most_once 5 s s1 s2 Hwin Hsteps).
Defined.

(** C2. For an index below [MAX_SUPPLY] and a caller other than the zero
    address, [claim(index)] succeeds exactly when the cell has no claimant and
    the total supply is below [MAX_SUPPLY]; a successful call returns [true],
    sets [claimedBy[index]] to the caller, raises the total supply and the
    number of claimed cells by one, and emits [Claimed(caller, index)] (after
    the [Transfer] event of the mint). *)
Theorem claim_succeeds_iff (msg_sender : address) (index : uint256) (s : State) :
  index < MAX_SUPPLY → msg_sender ≠ 0 →
  (succeeds (claim msg_sender index s)
   ↔ claimedBy_at s index = 0 ∧ _totalSupply s < MAX_SUPPLY) ∧
  (∀ r s' log, claim msg_sender index s = Ok r s' log →
     r = true ∧
     claimedBy_at s' index = msg_sender ∧
     (∀ j, j ≠ index → claimedBy_at s' j = claimedBy_at s j) ∧
     _totalSupply s' = _totalSupply s + 1 ∧
     claimedCount s' = claimedCount s + 1 ∧
     log = [Transfer 0 msg_sender 1; Claimed msg_sender index]).
Proof.
  intros Hi Ha. split.
  - rewrite claim_unfold.
    destruct (N.ltb_spec index MAX_SUPPLY); [|lia].
    destruct (N.eqb_spec (claimedBy_at s index) 0);
      destruct (N.ltb_spec (_totalSupply s) MAX_SUPPLY);
      destruct (N.eqb_spec msg_sender 0); cbn; try tauto; try lia.
  - intros r s' log H.
    apply claim_Ok in H as (_ & Hfree & _ & _ & -> & -> & ->).
    split_and!; try done.
    + rewrite claimedBy_at_insert. by rewrite decide_True.
    + intros j Hj. rewrite claimedBy_at_insert. by rewrite decide_False.
    + unfold claimedCount, claimedCells. cbn [claimedBy].
      rewrite map_filter_insert_True by done.
      rewrite !size_dom, map_size_insert_None; [lia|].
      apply map_lookup_filter_None. unfold claimedBy_at in Hfree.
      destruct (claimedBy s !! index) as [b|]; [|by left].
      right. intros ? [= <-]. cbn in *. congruence.
Qed.

Lemma claim_succeeds_iff_witness :
  let s := mkState {[5 := 7]} 1 {[7 := 1]} 9 in
  (succeeds (claim 8 6 s) ↔ claimedBy_at s 6 = 0 ∧ _totalSupply s < MAX_SUPPLY) ∧
  (∀ r s' log, claim 8 6 s = Ok r s' log →
     r = true ∧
     claimedBy_at s' 6 = 8 ∧
     (∀ j, j ≠ 6 → claimedBy_at s' j = claimedBy_at s j) ∧
     _totalSupply s' = _totalSupply s + 1 ∧
     claimedCount s' = claimedCount s + 1 ∧
     log = [Transfer 0 8 1; Claimed 8 6]).
Proof.
  intros s. apply (claim_succeeds_iff 8 6 s); [reflexivity|discriminate].
Defined.

(** C3, as stated, fails.  [sold_out] is reachable and its total supply is
    [MAX_SUPPLY], and a claim of the claimed cell 0 reverts with "already
    claimed", not with "Max supply reached": the cell is checked before the
    cap. *)
Lemma claim_at_cap_already_claimed :
  reachable sold_out ∧ _totalSupply sold_out = MAX_SUPPLY ∧
  claim 8 0 sold_out = Revert AlreadyClaimed ∧
  claim 8 0 sold_out ≠ Revert CapReached.
Proof.
  pose proof sold_out_spec as H. revert H. generalize sold_out.
  intros s (Hreach & Hts & Hcells).
  assert (claim 8 0 s = Revert AlreadyClaimed) as H.
  { rewrite claim_unfold, (Hcells 0). reflexivity. }
  rewrite H. split_and!; [exact Hreach|exact Hts|reflexivity|discriminate].
Qed.

(** C3, amended. A claim attempt made when the total supply equals
    [MAX_SUPPLY] always reverts, for every index and every state of the cell;
    the reason is "Max supply reached" when the index is below [MAX_SUPPLY]
    and the cell is free, "already claimed" when the cell has a claimant, and
    "index out of range" when the index is not below [MAX_SUPPLY]: the cap is
    checked after the index and the cell. *)
Theorem claim_at_cap (msg_sender : address) (index : uint256) (s : State) :
  _totalSupply s = MAX_SUPPLY →
  claim msg_sender index s =
    Revert (if negb (index <? MAX_SUPPLY) then OutOfRange
            else if isClaimed s index then AlreadyClaimed
            else CapReached).
Proof.
  intros Hts. rewrite claim_unfold, Hts. unfold isClaimed.
  destruct (index <? MAX_SUPPLY); [|done].
  by destruct (claimedBy_at s index =? 0).
Qed.

Lemma claim_at_cap_witness :
  let s := mkState {[0 := 7]} MAX_SUPPLY ∅ 9 in
  claim 8 0 s = Revert AlreadyClaimed ∧
  claim 8 1 s = Revert CapReached ∧
  claim 8 MAX_SUPPLY s = Revert OutOfRange.
Proof.
  intros s. split_and!.
  - apply (claim_at_cap 8 0 s). reflexivity.
  - apply (claim_at_cap 8 1 s). reflexivity.
  - apply (claim_at_cap 8 MAX_SUPPLY s). reflexivity.
Defined.

(** C4. In every reachable state the total supply equals the number of
    indices with a non-empty claimant, and is at most [MAX_SUPPLY]. *)
Theorem supply_counts_claimed_cells (s : State) :
  reachable s →
  _totalSupply s = claimedCount s ∧ _totalSupply s ≤ MAX_SUPPLY.
Proof.
  intros Hinv%inv_reachable.
  split; [symmetry; by apply inv_claimedCount|by apply inv_cap].
Qed.

Lemma supply_counts_claimed_cells_witness :
  let s := mkState {[5 := 7]} 1 {[7 := 1]} 9 in
  reachable s ∧ _totalSupply s = claimedCount s ∧ _totalSupply s ≤ MAX_SUPPLY.
Proof.
  intros s.
  assert (reachable s) as Hreach.
  { exists 9, (mkState ∅ 0 ∅ 9), [OwnershipTransferred 0 9].
    split; [vm_compute; reflexivity|].
    apply rtc_once.
    apply (step_claim 7 5 _ true s [Transfer 0 7 1; Claimed 7 5]).
    vm_compute. reflexivity. }
  split; [exact Hreach|]. exact (supply_counts_claimed_cells s Hreach).
Defined.

(** X2. In a reachable state, [ownerClaim(to, cellIndex)] sent by the owner and
    [claim(cellIndex)] sent by [to] succeed together and leave the same
    storage; the event log of [claim] is the log of [ownerClaim] followed by
    the [Claimed] event, which [ownerClaim] does not emit. *)
Lemma ownerClaim_like_claim (to : address) (cellIndex : uint256) (s : State) :
  reachable s →
  match ownerClaim (_owner s) to cellIndex s, claim to cellIndex s with
  | Ok _ s1 log1, Ok _ s2 log2 =>
      s1 = s2 ∧ log2 = log1 ++ [Claimed to cellIndex] ∧
      Claimed to cellIndex ∉ log1
  | Revert e1, Revert e2 => e1 = e2
  | _, _ => False
  end.
Proof.
  intros Hinv%inv_reachable.
  rewrite claim_unfold, ownerClaim_unfold, N.eqb_refl. cbn [negb].
  destruct (N.ltb_spec cellIndex MAX_SUPPLY); cbn [negb]; [|done].
  destruct (N.eqb_spec (claimedBy_at s cellIndex) 0); cbn [negb]; [|done].
  pose proof (inv_room _ _ Hinv ltac:(done) ltac:(done)) as Hroom.
  destruct (N.ltb_spec (_totalSupply s) MAX_SUPPLY); [|lia]. cbn [negb].
  destruct (N.eqb_spec to 0); [done|].
  destruct (N.ltb_spec MAX_UINT256 (_totalSupply s + 1)).
  { unfold MAX_UINT256, MAX_SUPPLY in *. lia. }
  split_and!; [done|done|]. by intros [=]%list_elem_of_singleton.
Qed.

(** C5, evaluated on a freshly deployed contract owned by 9. [ownerClaim(7,
    0)] sent by the owner and [claim(0)] sent by 7 leave the same storage, and
    [claim] emits [Claimed(7, 0)] where [ownerClaim] emits no [Claimed] event
    at all. *)
Theorem ownerClaim_emits_no_Claimed :
  let s := mkState ∅ 0 ∅ 9 in
  let s' := mkState {[0 := 7]} 1 {[7 := 1]} 9 in
  constructor 9 zero_storage = Ok tt s [OwnershipTransferred 0 9] ∧
  claim 7 0 s = Ok true s' [Transfer 0 7 1; Claimed 7 0] ∧
  ownerClaim 9 7 0 s = Ok tt s' [Transfer 0 7 1].
Proof. vm_compute. by split_and!. Qed.

(** C7. Once an index has a claimant, every further [claim] of it, by any
    sender and after any number of further steps, reverts with "already
    claimed" and leaves the storage, [claimedBy] and the total supply
    included, as it was. *)
Theorem claim_again_fails (i : uint256) (s s' : State) (msg_sender : address) :
  reachable s → claimedBy_at s i ≠ 0 → rtc step s s' →
  claim msg_sender i s' = Revert AlreadyClaimed ∧
  state_after s' (claim msg_sender i s') = s' ∧
  claimedBy (state_after s' (claim msg_sender i s')) = claimedBy s' ∧
  _totalSupply (state_after s' (claim msg_sender i s')) = _totalSupply s'.
Proof.
  intros Hreach Hi Hsteps.
  pose proof (steps_claimedBy_at _ _ i Hsteps Hi) as E.
  pose proof (inv_reachable _ (reachable_steps _ _ Hreach Hsteps)) as Hinv.
  assert (claimedBy_at s' i ≠ 0) as Hi' by congruence.
  assert (claim msg_sender i s' = Revert AlreadyClaimed) as ->.
  { rewrite claim_unfold.
    destruct (N.ltb_spec i MAX_SUPPLY); cbn [negb].
    - by destruct (N.eqb_spec (claimedBy_at s' i) 0).
    - pose proof (inv_taken _ _ Hinv Hi'). lia. }
  done.
Qed.

Lemma claim_again_fails_witness :
  let s := mkState {[5 := 7]} 1 {[7 := 1]} 9 in
  let s' := mkState {[5 := 7; 6 := 8]} 2 {[7 := 1; 8 := 1]} 9 in
  reachable s ∧ claimedBy_at s 5 ≠ 0 ∧ rtc step s s' ∧
  claim 8 5 s' = Revert AlreadyClaimed ∧
  state_after s' (claim 8 5 s') = s' ∧
  claimedBy (state_after s' (claim 8 5 s')) = claimedBy s' ∧
  _totalSupply (state_after s' (claim 8 5 s')) = _totalSupply s'.
Proof.
  intros s s'.
  assert (reachable s) as Hreach.
  { exists 9, (mkState ∅ 0 ∅ 9), [OwnershipTransferred 0 9].
    split; [vm_compute; reflexivity|].
    apply rtc_once.
    apply (step_claim 7 5 _ true s [Transfer 0 7 1; Claimed 7 5]).
    vm_compute. reflexivity. }
  assert (claimedBy_at s 5 ≠ 0) as Hi by (vm_compute; discriminate).
  assert (rtc step s s') as Hsteps.
  { apply rtc_once.
    apply (step_claim 8 6 s true s' [Transfer 0 8 1; Claimed 8 6]).
    vm_compute. reflexivity. }
  split; [exact Hreach|]. split; [exact Hi|]. split; [exact Hsteps|].
  exact (claim_again_fails 5 s s' 8 Hreach Hi Hsteps).
Defined.

(** C10. In every reachable state, an index below [MAX_SUPPLY] whose cell is
    free leaves the total supply below [MAX_SUPPLY]; so the third [require] of
    [claim] never fails: no [claim], by any sender for any index, reverts with
    "Max supply reached". *)
Theorem cap_check_never_fails (s : State) :
  reachable s →
  (∀ cellIndex, cellIndex < MAX_SUPPLY → claimedBy_at s cellIndex = 0 →
     _totalSupply s < MAX_SUPPLY) ∧
  (∀ msg_sender cellIndex, claim msg_sender cellIndex s ≠ Revert CapReached).
Proof.
  intros Hinv%inv_reachable. split.
  - intros i. by apply inv_room.
  - intros a i. rewrite claim_unfold.
    destruct (N.ltb_spec i MAX_SUPPLY); cbn [negb]; [|done].
    destruct (N.eqb_spec (claimedBy_at s i) 0); cbn [negb]; [|done].
    pose proof (inv_room _ _ Hinv ltac:(done) ltac:(done)).
    destruct (N.ltb_spec (_totalSupply s) MAX_SUPPLY); [|lia]. cbn [negb].
    by destruct (a =? 0).
Qed.

Lemma cap_check_never_fails_witness :
  let s := mkState {[5 := 7]} 1 {[7 := 1]} 9 in
  reachable s ∧
  (∀ cellIndex, cellIndex < MAX_SUPPLY → claimedBy_at s cellIndex = 0 →
     _totalSupply s < MAX_SUPPLY) ∧
  (∀ msg_sender cellIndex, claim msg_sender cellIndex s ≠ Revert CapReached).
Proof.
  intros s.
  assert (reachable s) as Hreach.
  { exists 9, (mkState ∅ 0 ∅ 9), [OwnershipTransferred 0 9].
    split; [vm_compute; reflexivity|].
    apply rtc_once.
    apply (step_claim 7 5 _ true s [Transfer 0 7 1; Claimed 7 5]).
    vm_compute. reflexivity. }
  split; [exact Hreach|]. exact (cap_check_never_fails s Hreach).
Defined.

(** *** Further properties of the contract *)



(** X3. No cell outside the grid is ever claimed: in a reachable state
    [isClaimed] answers [false] for every index that is not below
    [MAX_SUPPLY], and [claim] and [ownerClaim] reject such an index. *)
Theorem out_of_range_never_claimed (s : State) (i : uint256) :
  reachable s → MAX_SUPPLY ≤ i →
  isClaimed s i = false ∧
  (∀ msg_sender, claim msg_sender i s = Revert OutOfRange) ∧
  (∀ to, ownerClaim (_owner s) to i s = Revert OutOfRange).
Proof.
  intros Hinv%inv_reachable Hi. split_and!.
  - unfold isClaimed. destruct (N.eqb_spec (claimedBy_at s i) 0); [done|].
    pose proof (inv_taken _ _ Hinv ltac:(done)). lia.
  - intros a. rewrite claim_unfold.
    by destruct (N.ltb_spec i MAX_SUPPLY); [lia|].
  - intros to. rewrite ownerClaim_unfold, N.eqb_refl. cbn [negb].
    by destruct (N.ltb_spec i MAX_SUPPLY); [lia|].
Qed.

Lemma out_of_range_never_claimed_witness :
  let s := mkState {[5 := 7]} 1 {[7 := 1]} 9 in
  reachable s ∧ isClaimed s 1000000 = false ∧
  (∀ msg_sender, claim msg_sender 1000000 s = Revert OutOfRange) ∧
  (∀ to, ownerClaim (_owner s) to 1000000 s = Revert OutOfRange).
Proof.
  intros s.
  assert (reachable s) as Hreach.
  { exists 9, (mkState ∅ 0 ∅ 9), [OwnershipTransferred 0 9].
    split; [vm_compute; reflexivity|].
    apply rtc_once.
    apply (step_claim 7 5 _ true s [Transfer 0 7 1; Claimed 7 5]).
    vm_compute. reflexivity. }
  split; [exact Hreach|].
  apply (out_of_range_never_claimed s 1000000 Hreach). vm_compute. discriminate.
Defined.

Lemma step_supply s s' :
  step s s' →
  _totalSupply s ≤ _totalSupply s' ≤ _totalSupply s + 1.
Proof.
  intros [a j s0 r s1 log H|a to j s0 r s1 log H|s0 b o].
  - apply claim_Ok in H as (_ & _ & _ & _ & _ & -> & _). cbn. lia.
  - apply ownerClaim_Ok in H as (_ & _ & _ & _ & -> & _). cbn. lia.
  - cbn. lia.
Qed.

(** X4. Along any execution, from any storage, the total supply never decreases
    and the set of claimed cells never loses a member. *)
Theorem supply_and_cells_grow (s s' : State) :
  rtc step s s' →
  _totalSupply s ≤ _totalSupply s' ∧ claimedCells s ⊆ claimedCells s'.
Proof.
  intros Hsteps. split.
  - induction Hsteps as [|s s1 s2 Hstep _ IH]; [lia|].
    apply step_supply in Hstep. lia.
  - intros i Hi%elem_of_claimedCells. apply elem_of_claimedCells.
    by rewrite (steps_claimedBy_at _ _ i Hsteps Hi).
Qed.

Lemma supply_and_cells_grow_witness :
  let s := mkState {[5 := 7]} 1 {[7 := 1]} 9 in
  let s' := mkState {[5 := 7; 6 := 8]} 2 {[7 := 1; 8 := 1]} 9 in
  rtc step s s' ∧
  _totalSupply s ≤ _totalSupply s' ∧ claimedCells s ⊆ claimedCells s'.
Proof.
  intros s s'.
  assert (rtc step s s') as Hsteps.
  { apply rtc_once.
    apply (step_claim 8 6 s true s' [Transfer 0 8 1; Claimed 8 6]).
    vm_compute. reflexivity. }
  split; [exact Hsteps|]. exact (supply_and_cells_grow s s' Hsteps).
Defined.

(** *** Claims of different cells commute *)

(** The storage left by [claim], under the invariant: the cap check plays no
    part. *)
Lemma state_after_claim a i s :
  registry_inv s →
  state_after s (claim a i s) =
    if decide (i < MAX_SUPPLY ∧ claimedBy_at s i = 0 ∧ a ≠ 0)
    then mkState (<[i := a]> (claimedBy s)) (_totalSupply s + 1)
           (<[a := (balanceOf s a + 1) mod 2 ^ 256]> (_balances s)) (_owner s)
    else s.
Proof.
  intros Hinv. rewrite claim_unfold.
  destruct (N.ltb_spec i MAX_SUPPLY); cbn [negb];
    [|rewrite decide_False by lia; done].
  destruct (N.eqb_spec (claimedBy_at s i) 0); cbn [negb];
    [|rewrite decide_False by tauto; done].
  pose proof (inv_room _ _ Hinv ltac:(done) ltac:(done)).
  destruct (N.ltb_spec (_totalSupply s) MAX_SUPPLY); [|lia]. cbn [negb].
  destruct (N.eqb_spec a 0);
    [rewrite decide_False by tauto|rewrite decide_True by tauto]; done.
Qed.

Lemma succeeds_claim a i s :
  registry_inv s →
  succeeds (claim a i s) ↔ i < MAX_SUPPLY ∧ claimedBy_at s i = 0 ∧ a ≠ 0.
Proof.
  intros Hinv. rewrite claim_unfold.
  destruct (N.ltb_spec i MAX_SUPPLY); cbn [negb]; [|cbn; lia].
  destruct (N.eqb_spec (claimedBy_at s i) 0); cbn [negb]; [|cbn; tauto].
  pose proof (inv_room _ _ Hinv ltac:(done) ltac:(done)).
  destruct (N.ltb_spec (_totalSupply s) MAX_SUPPLY); [|lia]. cbn [negb].
  destruct (N.eqb_spec a 0); cbn; tauto.
Qed.

Lemma inv_state_after_claim a i s :
  registry_inv s → registry_inv (state_after s (claim a i s)).
Proof.
  intros Hinv. destruct (claim a i s) as [r s' log|e] eqn:H; [|done].
  eapply inv_step; [|done]. by eapply step_claim.
Qed.

Lemma claimedBy_at_state_after_claim a i j s :
  registry_inv s → i ≠ j →
  claimedBy_at (state_after s (claim a i s)) j = claimedBy_at s j.
Proof.
  intros Hinv Hij. rewrite state_after_claim by done.
  case_decide; [|done]. rewrite claimedBy_at_insert. by rewrite decide_False.
Qed.

Lemma balanceOf_insert s a b v cb t own :
  balanceOf (mkState cb t (<[b := v]> (_balances s)) own) a
  = if decide (a = b) then v else balanceOf s a.
Proof.
  unfold balanceOf. cbn [_balances]. rewrite lookup_insert.
  repeat case_decide; done || congruence.
Qed.

(** X5. Two claims of different cells, by any two senders, can be made in either
    order: each succeeds in one order exactly when it succeeds in the other,
    and the storage after both is the same. *)
Theorem claims_commute (a b : address) (i j : uint256) (s : State) :
  reachable s → i ≠ j →
  let s1 := state_after s (claim a i s) in
  let s2 := state_after s (claim b j s) in
  state_after s1 (claim b j s1) = state_after s2 (claim a i s2) ∧
  (succeeds (claim a i s) ↔ succeeds (claim a i s2)) ∧
  (succeeds (claim b j s) ↔ succeeds (claim b j s1)).
Proof.
  intros Hinv%inv_reachable Hij s1 s2.
  pose proof (inv_state_after_claim a i s Hinv) as Hinv1.
  pose proof (inv_state_after_claim b j s Hinv) as Hinv2.
  pose proof (claimedBy_at_state_after_claim a i j s Hinv Hij) as E1.
  pose proof (claimedBy_at_state_after_claim b j i s Hinv ltac:(done)) as E2.
  fold s1 in Hinv1, E1. fold s2 in Hinv2, E2.
  split_and!.
  - rewrite (state_after_claim b j s1), (state_after_claim a i s2) by done.
    rewrite E1, E2. subst s1 s2. rewrite !state_after_claim by done.
    destruct (decide (i < MAX_SUPPLY ∧ claimedBy_at s i = 0 ∧ a ≠ 0));
      destruct (decide (j < MAX_SUPPLY ∧ claimedBy_at s j = 0 ∧ b ≠ 0));
      try done.
    cbn [claimedBy _totalSupply _balances _owner]. f_equal.
    + by apply insert_insert_ne.
    + rewrite !balanceOf_insert.
      destruct (decide (a = b)) as [->|Hab].
      * rewrite !decide_True by done. by rewrite !insert_insert_eq.
      * rewrite !decide_False by done. by apply insert_insert_ne.
  - rewrite !succeeds_claim by done. by rewrite E2.
  - rewrite !succeeds_claim by done. by rewrite E1.
Qed.

Lemma claims_commute_witness :
  let s := mkState {[5 := 7]} 1 {[7 := 1]} 9 in
  let s1 := state_after s (claim 7 6 s) in
  let s2 := state_after s (claim 8 3 s) in
  reachable s ∧
  state_after s1 (claim 8 3 s1)
  = mkState {[5 := 7; 6 := 7; 3 := 8]} 3 {[7 := 2; 8 := 1]} 9 ∧
  state_after s1 (claim 8 3 s1) = state_after s2 (claim 7 6 s2).
Proof.
  intros s s1 s2.
  assert (reachable s) as Hreach.
  { exists 9, (mkState ∅ 0 ∅ 9), [OwnershipTransferred 0 9].
    split; [vm_compute; reflexivity|].
    apply rtc_once.
    apply (step_claim 7 5 _ true s [Transfer 0 7 1; Claimed 7 5]).
    vm_compute. reflexivity. }
  split; [exact Hreach|]. split; [vm_compute; reflexivity|].
  apply (claims_commute 7 8 6 3 s Hreach). discriminate.
Defined.

(** *** One token per cell *)

Lemma cellsOf_le s a : registry_inv s → cellsOf s a ≤ _totalSupply s.
Proof.
  intros [_ ->]. unfold cellsOf.
  pose proof (map_size_filter (λ kv : N * N, kv.2 = a) (claimedBy s)). lia.
Qed.

Lemma cellsOf_insert s i a b bal own t :
  claimedBy s !! i = None →
  cellsOf (mkState (<[i := b]> (claimedBy s)) t bal own) a
  = if decide (a = b) then cellsOf s a + 1 else cellsOf s a.
Proof.
  intros Hnone. unfold cellsOf. cbn [claimedBy]. case_decide as Hab.
  - rewrite map_filter_insert_True by done.
    rewrite map_size_insert_None; [lia|].
    apply map_lookup_filter_None. by left.
  - rewrite map_filter_insert_False by (cbn; congruence).
    by rewrite delete_id.
Qed.

Lemma mint_step_step s s' : mint_step s s' → step s s'.
Proof. intros [? ? ? ? ? ? H|? ? ? ? ? ? ? H]; eauto using step. Qed.

Lemma mint_step_balances s s' :
  mint_step s s' → registry_inv s →
  (∀ a, balanceOf s a = cellsOf s a) → ∀ a, balanceOf s' a = cellsOf s' a.
Proof.
  intros Hstep Hinv Hbal a.
  assert (∀ b, (cellsOf s b + 1) mod 2 ^ 256 = cellsOf s b + 1) as Hmod.
  { intros b. apply N.mod_small. pose proof (cellsOf_le s b Hinv).
    pose proof (inv_cap s Hinv). unfold MAX_SUPPLY in *. lia. }
  destruct Hstep as [b i s r s' log H|c b i s r s' log H].
  - apply claim_Ok in H as (_ & Hfree & _ & _ & _ & -> & _).
    rewrite balanceOf_insert, cellsOf_insert by by apply inv_free.
    case_decide; [subst|done]. by rewrite Hbal, Hmod.
  - apply ownerClaim_Ok in H as (_ & _ & Hfree & _ & -> & _).
    rewrite balanceOf_insert, cellsOf_insert by by apply inv_free.
    case_decide; [subst|done]. by rewrite Hbal, Hmod.
Qed.

(** X6. As long as no token is transferred, the balance of every account is the
    number of cells it has claimed: one token per cell, with no wrap-around of
    the unchecked addition. *)
Theorem balance_counts_cells (s : State) (a : address) :
  minted s → balanceOf s a = cellsOf s a.
Proof.
  intros (d & s0 & log & Hc & Hsteps).
  apply constructor_Ok in Hc as [_ ->]. revert a.
  assert (registry_inv (mkState ∅ 0 ∅ d)) as Hinv.
  { split; cbn [claimedBy _totalSupply]; [|done].
    intros i a. by rewrite lookup_empty. }
  assert (∀ a, balanceOf (mkState ∅ 0 ∅ d) a = cellsOf (mkState ∅ 0 ∅ d) a)
    as Hbal by done.
  induction Hsteps as [|x y z Hstep _ IH]; [done|].
  apply IH.
  - eapply inv_step; [|done]. by apply mint_step_step.
  - by eapply mint_step_balances.
Qed.

Lemma balance_counts_cells_witness :
  let s := mkState {[5 := 7; 6 := 7]} 2 {[7 := 2]} 9 in
  minted s ∧ balanceOf s 7 = 2 ∧ balanceOf s 7 = cellsOf s 7.
Proof.
  intros s.
  assert (minted s) as Hm.
  { exists 9, (mkState ∅ 0 ∅ 9), [OwnershipTransferred 0 9].
    split; [vm_compute; reflexivity|].
    eapply rtc_l.
    - apply (mint_claim 7 5 _ true (mkState {[5 := 7]} 1 {[7 := 1]} 9)
               [Transfer 0 7 1; Claimed 7 5]).
      vm_compute. reflexivity.
    - apply rtc_once.
      apply (mint_ownerClaim 9 7 6 _ tt s [Transfer 0 7 1]).
      vm_compute. reflexivity. }
  split; [exact Hm|]. split; [vm_compute; reflexivity|].
  exact (balance_counts_cells s 7 Hm).
Defined.

Lemma ownerClaim_like_claim_witness :
  let s := mkState {[5 := 7]} 1 {[7 := 1]} 9 in
  reachable s ∧
  ownerClaim (_owner s) 8 6 s
  = Ok tt (mkState {[5 := 7; 6 := 8]} 2 {[7 := 1; 8 := 1]} 9) [Transfer 0 8 1] ∧
  claim 8 6 s
  = Ok true (mkState {[5 := 7; 6 := 8]} 2 {[7 := 1; 8 := 1]} 9)
      [Transfer 0 8 1; Claimed 8 6] ∧
  match ownerClaim (_owner s) 8 6 s, claim 8 6 s with
  | Ok _ s1 log1, Ok _ s2 log2 =>
      s1 = s2 ∧ log2 = log1 ++ [Claimed 8 6] ∧ Claimed 8 6 ∉ log1
  | Revert e1, Revert e2 => e1 = e2
  | _, _ => False
  end.
Proof.
  intros s.
  assert (reachable s) as Hreach.
  { exists 9, (mkState ∅ 0 ∅ 9), [OwnershipTransferred 0 9].
    split; [vm_compute; reflexivity|].
    apply rtc_once.
    apply (step_claim 7 5 _ true s [Transfer 0 7 1; Claimed 7 5]).
    vm_compute. reflexivity. }
  split; [exact Hreach|]. split; [vm_compute; reflexivity|].
  split; [vm_compute; reflexivity|].
  exact (ownerClaim_like_claim 8 6 s Hreach).
Defined.

End TokenSpec.

(** ** Properties of the client *)

Module AppSpec.

Import App.
Local Open Scope Z_scope.

Example session_claims_7 :
  let st := run [WalletConnected "0xA"; Click 7; ClaimSent 7; ClaimMined 7;
                 ClaimRefreshed 7 1 1000000] (initial 1280) in
  clicked st = {[7]} ∧ txPending st = false ∧ totalSupply st = 1 ∧
  isClicked st 7 = true ∧ handlers st = [].
Proof. vm_compute. by split_and!. Qed.

(** *** The two sets only grow *)

Ltac session_simpl :=
  cbn [remoteClaimedSet clicked lookups handlers contract txPending
       setContract setAccount setTotalSupply setMaxSupply setTxPending
       setClicked setViewportWidth setRemoteClaimedSet set_lookups
       set_handlers alert snd fst].

Lemma Cell_sets columnIndex rowIndex st :
  remoteClaimedSet (Cell columnIndex rowIndex st).2 = remoteClaimedSet st ∧
  clicked (Cell columnIndex rowIndex st).2 = clicked st.
Proof.
  unfold Cell. destruct (1000000 <=? _); [done|]. session_simpl.
  by destruct (negb _ && _).
Qed.

Lemma step_sets e st :
  remoteClaimedSet st ⊆ remoteClaimedSet (step e st) ∧
  clicked st ⊆ clicked (step e st).
Proof.
  destruct e as [w|addr|supply max|c r|i claimed|i|i|i|i|i supply max|i at_ msg];
    cbn [step].
  - done.
  - done.
  - done.
  - by destruct (Cell_sets c r st) as [-> ->].
  - destruct (settle i (lookups st)) as [rest|]; [|done].
    unfold isClaimed_then. destruct claimed; session_simpl; set_solver.
  - by destruct (settle i (lookups st)) as [rest|].
  - unfold claim_start. destruct (contract st); [|done].
    by destruct (txPending st).
  - unfold resume. by destruct (settle _ _).
  - unfold resume. by destruct (settle _ _).
  - unfold resume. destruct (settle _ _); [|done].
    unfold claim_finish, refreshSupply_done. session_simpl. set_solver.
  - unfold resume. by destruct (settle _ _).
Qed.

Lemma run_sets evs st :
  remoteClaimedSet st ⊆ remoteClaimedSet (run evs st) ∧
  clicked st ⊆ clicked (run evs st).
Proof.
  revert st. induction evs as [|e evs IH]; intros st; [done|].
  change (run (e :: evs) st) with (run evs (step e st)).
  destruct (step_sets e st) as [? ?], (IH (step e st)) as [? ?].
  split; etrans; done.
Qed.

Lemma isClicked_true st i :
  isClicked st i = true ↔ i ∈ remoteClaimedSet st ∨ i ∈ clicked st.
Proof.
  unfold isClicked. rewrite orb_true_iff, !bool_decide_eq_true. done.
Qed.

Lemma isClicked_run evs st i :
  isClicked st i = true → isClicked (run evs st) i = true.
Proof.
  destruct (run_sets evs st) as [Hr Hc].
  rewrite !isClicked_true. intros [?|?]; [left|right]; auto.
Qed.

(** What [Cell] draws is [isClicked] of its index. *)
Lemma Cell_view columnIndex rowIndex st :
  (Cell columnIndex rowIndex st).1 =
    let cellIndex := rowIndex * columns st + columnIndex in
    if 1000000 <=? cellIndex then None else Some (isClicked st cellIndex).
Proof. unfold Cell. cbn zeta. by destruct (1000000 <=? _). Qed.

(** C6. Whatever happens in a session (renders, lookups resolving either way
    or failing, clicks, claims progressing or throwing, resizes), neither
    [remoteClaimedSet] nor [clicked] loses a member, and a view that is true
    for an index stays true. *)
Theorem view_monotone (evs : list event) (st : Session) (i : Z) :
  remoteClaimedSet st ⊆ remoteClaimedSet (run evs st) ∧
  clicked st ⊆ clicked (run evs st) ∧
  (isClicked st i = true → isClicked (run evs st) i = true).
Proof.
  destruct (run_sets evs st) as [Hr Hc]. split_and!; [done|done|].
  apply isClicked_run.
Qed.

Lemma view_monotone_witness :
  let st := run [Render 0 0; LookupResolved 0 true] (initial 1280) in
  let evs := [Render 0 0; Resize 800; LookupRejected 0; LookupResolved 0 false;
              Click 0] in
  isClicked st 0 = true ∧ isClicked (run evs st) 0 = true.
Proof.
  intros st evs.
  assert (isClicked st 0 = true) as H by (vm_compute; reflexivity).
  split; [exact H|].
  exact (proj2 (proj2 (view_monotone evs st 0)) H).
Defined.

(** *** Lookups *)

Lemma outstanding_app i l st :
  outstanding i (set_lookups (lookups st ++ l) st)
  = (outstanding i st + length (filter (λ j, j = i) l))%nat.
Proof.
  unfold outstanding. cbn [lookups set_lookups].
  by rewrite filter_app, length_app.
Qed.

(** C8, as stated, fails.  Two renders of cell 0, with no lookup settled in
    between, leave two [isClaimed(0)] queries outstanding, for an index that
    is in neither set. *)
Lemma render_twice_two_lookups :
  let st := run [Render 0 0; Render 0 0] (initial 1280) in
  (0 ∉ remoteClaimedSet st) ∧ isClicked st 0 = false ∧
  lookups st = [0; 0] ∧ outstanding 0 st = 2%nat.
Proof. vm_compute. split_and!; try reflexivity. set_solver. Qed.

(** C8, amended. Every render of a cell whose index is below 1,000,000 and
    not in [remoteClaimedSet] fires one more [isClaimed] query for that index,
    whatever the number of queries already outstanding for it: lookups are not
    deduplicated.  A render of a cell whose index is in [remoteClaimedSet], or
    is 1,000,000 or more, fires none. *)
Theorem render_fires_lookup (columnIndex rowIndex : Z) (st : Session) :
  let cellIndex := rowIndex * columns st + columnIndex in
  let st' := (Cell columnIndex rowIndex st).2 in
  (cellIndex < 1000000 → cellIndex ∉ remoteClaimedSet st →
     lookups st' = lookups st ++ [cellIndex] ∧
     outstanding cellIndex st' = S (outstanding cellIndex st)) ∧
  (cellIndex ∈ remoteClaimedSet st ∨ 1000000 ≤ cellIndex →
     lookups st' = lookups st).
Proof.
  intros cellIndex st'. subst st'. unfold Cell. fold cellIndex.
  destruct (Z.leb_spec 1000000 cellIndex) as [Hge|Hlt]; cbn [snd].
  - split; [lia|done].
  - unfold truthy. rewrite andb_true_r. split.
    + intros _ Hnot. rewrite bool_decide_eq_false_2 by done. cbn [negb].
      split; [done|]. rewrite outstanding_app. cbn.
      rewrite decide_True by done. cbn. lia.
    + intros [Hin|?]; [|lia]. by rewrite bool_decide_eq_true_2.
Qed.

Lemma render_fires_lookup_witness :
  let st := run [Render 0 0] (initial 1280) in
  let st' := (Cell 0 0 st).2 in
  outstanding 0 st = 1%nat ∧
  lookups st' = lookups st ++ [0] ∧ outstanding 0 st' = 2%nat.
Proof.
  intros st st'. split; [vm_compute; reflexivity|].
  apply (proj1 (render_fires_lookup 0 0 st)).
  - vm_compute. reflexivity.
  - vm_compute. set_solver.
Defined.

(** *** The optimistic update *)

(** When the handler runs to its end, the claimed index is in [clicked], with
    no lookup involved, and stays there. *)
Lemma claim_finish_view cellIndex supply max st evs :
  isClicked (run evs (claim_finish cellIndex supply max st)) cellIndex = true.
Proof.
  apply isClicked_run, isClicked_true. right.
  unfold claim_finish, refreshSupply_done. session_simpl. set_solver.
Qed.

(** C9, evaluated on a session in which the claim of cell 7 is sent and mined
    and the [refreshSupply()] that follows rejects.  After the transaction is
    mined the handler is suspended at [await refreshSupply()] and the view of
    7 is still false; when that call rejects, the [catch] block runs instead
    of [setClicked]: the error is shown, and the view of 7 stays false. *)
Theorem mined_claim_left_unmarked :
  let mined := run [WalletConnected "0xA"; Click 7; ClaimSent 7; ClaimMined 7]
                 (initial 1280) in
  let st := step (ClaimThrew 7 await_refreshSupply "missing response") mined in
  handlers mined = [(7, await_refreshSupply)] ∧ isClicked mined 7 = false ∧
  handlers st = [] ∧ txPending st = false ∧
  alerts st = ["missing response"] ∧
  clicked st = ∅ ∧ isClicked st 7 = false.
Proof. vm_compute. by split_and!. Qed.

(** *** The grid *)

Lemma columns_pos st : 32 ≤ viewportWidth st → 1 ≤ columns st.
Proof.
  unfold columns, columnWidth. intros Hw.
  pose proof (Z.div_mod (viewportWidth st - 32) 24 ltac:(lia)) as E.
  pose proof (Z.mod_pos_bound (viewportWidth st - 32) 24 ltac:(lia)) as B.
  destruct (Z.eqb_spec ((viewportWidth st - 32) `div` 24) 0); lia.
Qed.

(** X7. The column count is never zero.  From a width of 32 on it is at least
    one, and from 56 on the columns fill the width less the padding of 32
    without exceeding it; below 32 it is negative. *)
Theorem columns_bounds (st : Session) :
  columns st ≠ 0 ∧
  (32 ≤ viewportWidth st → 1 ≤ columns st) ∧
  (56 ≤ viewportWidth st →
     columns st * columnWidth ≤ viewportWidth st - 32
     < (columns st + 1) * columnWidth) ∧
  (viewportWidth st < 32 → columns st < 0).
Proof.
  unfold columns, columnWidth.
  pose proof (Z.div_mod (viewportWidth st - 32) 24 ltac:(lia)) as E.
  pose proof (Z.mod_pos_bound (viewportWidth st - 32) 24 ltac:(lia)) as B.
  destruct (Z.eqb_spec ((viewportWidth st - 32) `div` 24) 0); split_and!; lia.
Qed.

Lemma columns_bounds_witness :
  columns (initial 1280) = 52 ∧ columns (initial 40) = 1 ∧
  columns (initial 20) = -1 ∧
  (56 ≤ viewportWidth (initial 1280) →
     columns (initial 1280) * columnWidth ≤ viewportWidth (initial 1280) - 32
     < (columns (initial 1280) + 1) * columnWidth).
Proof.
  split_and!; [reflexivity|reflexivity|reflexivity|].
  exact (proj1 (proj2 (proj2 (columns_bounds (initial 1280))))).
Defined.

(** X8. In a window at least 32 wide the grid shows every cell exactly once: an
    index below 1,000,000 sits at row [i / columns], column [i mod columns],
    inside the [rowCount] by [columns] grid, is drawn there with its view, and
    sits at no other position of a row. *)
Theorem grid_shows_every_cell (st : Session) (i : Z) :
  32 ≤ viewportWidth st → 0 ≤ i < 1000000 →
  let rowIndex := i `div` columns st in
  let columnIndex := i `mod` columns st in
  0 ≤ rowIndex < rowCount st ∧ 0 ≤ columnIndex < columns st ∧
  (Cell columnIndex rowIndex st).1 = Some (isClicked st i) ∧
  (∀ r c, 0 ≤ c < columns st → r * columns st + c = i →
     r = rowIndex ∧ c = columnIndex).
Proof.
  intros Hw Hi rowIndex columnIndex.
  pose proof (columns_pos st Hw) as Hk.
  pose proof (Z.div_mod i (columns st) ltac:(lia)) as E.
  pose proof (Z.mod_pos_bound i (columns st) ltac:(lia)) as B.
  pose proof (Z.div_mod (-1000000) (columns st) ltac:(lia)) as E'.
  pose proof (Z.mod_pos_bound (-1000000) (columns st) ltac:(lia)) as B'.
  fold rowIndex columnIndex in E, B. unfold rowCount.
  assert (rowIndex * columns st + columnIndex = i) as Hidx by lia.
  split_and!; try lia.
  - nia.
  - nia.
  - rewrite Cell_view. cbn zeta. rewrite Hidx.
    by destruct (Z.leb_spec 1000000 i); [lia|].
  - intros r c Hc Hrc. assert (r = rowIndex) by nia. subst r. lia.
Qed.

Lemma grid_shows_every_cell_witness :
  let st := initial 1280 in
  0 ≤ 999999 `div` columns st < rowCount st ∧
  0 ≤ 999999 `mod` columns st < columns st ∧
  (Cell (999999 `mod` columns st) (999999 `div` columns st) st).1
  = Some (isClicked st 999999) ∧
  (∀ r c, 0 ≤ c < columns st → r * columns st + c = 999999 →
     r = 999999 `div` columns st ∧ c = 999999 `mod` columns st).
Proof.
  intros st. apply (grid_shows_every_cell st 999999).
  - vm_compute. discriminate.
  - split; [vm_compute; discriminate|reflexivity].
Defined.

(** X9. Nothing is drawn past the last cell: a grid position whose index is
    1,000,000 or more draws [null] and fires no lookup, and in a window at
    least 32 wide such positions are only found in the last row. *)
Theorem grid_draws_nothing_beyond (st : Session) (columnIndex rowIndex : Z) :
  1000000 ≤ rowIndex * columns st + columnIndex →
  Cell columnIndex rowIndex st = (None, st) ∧
  (32 ≤ viewportWidth st → 0 ≤ columnIndex < columns st →
   rowIndex < rowCount st → rowIndex = rowCount st - 1).
Proof.
  intros Hge. split.
  - unfold Cell. by destruct (Z.leb_spec 1000000 (rowIndex * columns st + columnIndex));
      [|lia].
  - intros Hw Hc Hr.
    pose proof (columns_pos st Hw) as Hk.
    pose proof (Z.div_mod (-1000000) (columns st) ltac:(lia)) as E'.
    pose proof (Z.mod_pos_bound (-1000000) (columns st) ltac:(lia)) as B'.
    unfold rowCount in *. nia.
Qed.

Lemma grid_draws_nothing_beyond_witness :
  let st := initial 1280 in
  rowCount st = 19231 ∧
  Cell 50 19230 st = (None, st) ∧ 19230 = rowCount st - 1.
Proof.
  intros st. split; [reflexivity|].
  assert (1000000 ≤ 19230 * columns st + 50) as H by (vm_compute; discriminate).
  split; [exact (proj1 (grid_draws_nothing_beyond st 50 19230 H))|].
  apply (proj2 (grid_draws_nothing_beyond st 50 19230 H)).
  - vm_compute. discriminate.
  - split; [vm_compute; discriminate|reflexivity].
  - reflexivity.
Defined.

(** *** One claim at a time *)

Lemma settle_elem {A} `{EqDecision A} (x : A) l rest :
  settle x l = Some rest → x ∈ l ∧ (∀ y, y ∈ rest → y ∈ l) ∧
  length l = S (length rest).
Proof.
  revert rest. induction l as [|y l IH]; intros rest; cbn; [done|].
  case_decide as Hxy.
  - intros [= <-]. subst. split_and!; [left|by right|done].
  - destruct (settle x l) as [rest'|]; cbn; [|done]. intros [= <-].
    destruct (IH rest' eq_refl) as (? & Hsub & ?). split_and!.
    + by right.
    + intros z [->|?]%elem_of_cons; [left|right; auto].
    + cbn. lia.
Qed.

Lemma run_snoc evs e st : run (evs ++ [e]) st = step e (run evs st).
Proof. unfold run. by rewrite foldl_snoc. Qed.

Lemma step_one_handler e st : one_handler st → one_handler (step e st).
Proof.
  intros Hinv.
  destruct e as [w|addr|supply max|c r|i claimed|i|i|i|i|i supply max|i at_ msg];
    cbn [step].
  - done.
  - destruct Hinv as [?|(h & ? & ? & ?)]; [by left|right]. by exists h.
  - done.
  - unfold Cell. destruct (1000000 <=? _); [done|]. cbn [snd].
    by destruct (negb _ && _).
  - destruct (settle i (lookups st)); [|done].
    unfold isClaimed_then. by destruct claimed.
  - by destruct (settle i (lookups st)).
  - unfold claim_start. destruct (contract st) as [c|] eqn:Hc; [|done].
    destruct (txPending st) eqn:Hp; [done|].
    destruct Hinv as [[Hh _]|(h & _ & ? & _)]; [|congruence].
    right. exists (i, await_claim). session_simpl. rewrite Hh, Hc. by split_and!.
  - unfold resume. destruct (settle _ _) as [rest|] eqn:Hs; [|done].
    destruct Hinv as [[Hh _]|(h & Hh & ? & ?)]; rewrite Hh in Hs; [done|].
    apply settle_elem in Hs as (_ & _ & Hlen). destruct rest; [|done].
    right. eexists. session_simpl. by split_and!.
  - unfold resume. destruct (settle _ _) as [rest|] eqn:Hs; [|done].
    destruct Hinv as [[Hh _]|(h & Hh & ? & ?)]; rewrite Hh in Hs; [done|].
    apply settle_elem in Hs as (_ & _ & Hlen). destruct rest; [|done].
    right. eexists. session_simpl. by split_and!.
  - unfold resume. destruct (settle _ _) as [rest|] eqn:Hs; [|done].
    destruct Hinv as [[Hh _]|(h & Hh & ? & ?)]; rewrite Hh in Hs; [done|].
    apply settle_elem in Hs as (_ & _ & Hlen). destruct rest; [|done].
    by left.
  - unfold resume. destruct (settle _ _) as [rest|] eqn:Hs; [|done].
    destruct Hinv as [[Hh _]|(h & Hh & ? & ?)]; rewrite Hh in Hs; [done|].
    apply settle_elem in Hs as (_ & _ & Hlen). destruct rest; [|done].
    by left.
Qed.

(** X10. In a session, whatever happens, at most one [claim] handler is running,
    [txPending] is true exactly while one is (every way out of the handler
    resets it), and a handler only runs with a connected contract. *)
Theorem one_claim_at_a_time (evs : list event) (innerWidth : Z) :
  let st := run evs (initial innerWidth) in
  (length (handlers st) ≤ 1)%nat ∧
  (txPending st = true ↔ handlers st ≠ []) ∧
  (handlers st ≠ [] → is_Some (contract st)).
Proof.
  intros st.
  assert (one_handler st) as Hinv.
  { subst st. induction evs as [|e evs IH] using rev_ind; [by left|].
    rewrite run_snoc. by apply step_one_handler. }
  destruct Hinv as [[-> ->]|(h & -> & -> & ?)]; split_and!; cbn; try done; lia.
Qed.

(** *** What the two sets hold *)

Lemma backed_mono evs e st : backed evs st → backed (evs ++ [e]) st.
Proof.
  intros (Hr & Hl & Hc & Hh). split_and!.
  - intros i Hi. destruct (Hr i Hi). split; [done|]. apply elem_of_app. by left.
  - done.
  - intros i Hi. destruct (Hc i Hi) as (? & supply & max & ?).
    split; [apply elem_of_app; by left|].
    exists supply, max. apply elem_of_app. by left.
  - intros i Hi. apply elem_of_app. left. by apply Hh.
Qed.

Lemma last_event (evs : list event) e : e ∈ evs ++ [e].
Proof. apply elem_of_app. right. by left. Qed.

Lemma step_backed evs e st : backed evs st → backed (evs ++ [e]) (step e st).
Proof.
  intros Hb. pose proof (backed_mono evs e st Hb) as (Hr & Hl & Hc & Hh).
  pose proof (last_event evs e) as Hlast.
  destruct e as [w|addr|supply max|c r|i claimed|i|i|i|i|i supply max|i at_ msg];
    cbn [step].
  - done.
  - done.
  - done.
  - unfold Cell. destruct (Z.leb_spec 1000000 (r * columns st + c)); [done|].
    cbn [snd]. destruct (negb _ && _); [|done].
    split_and!; session_simpl; try done.
    intros i [?|Hi%list_elem_of_singleton]%elem_of_app; [by apply Hl|].
    by subst i.
  - destruct (settle i (lookups st)) as [rest|] eqn:Hs; [|done].
    apply settle_elem in Hs as (Hi & Hsub & _).
    unfold isClaimed_then. destruct claimed; split_and!; session_simpl;
      try done; try (intros j Hj; by apply Hl, Hsub).
    intros j [->%elem_of_singleton|?]%elem_of_union; [|by apply Hr].
    split; [by apply Hl|done].
  - destruct (settle i (lookups st)) as [rest|] eqn:Hs; [|done].
    apply settle_elem in Hs as (Hi & Hsub & _).
    unfold isClaimed_catch. split_and!; session_simpl; try done.
    intros j Hj. by apply Hl, Hsub.
  - unfold claim_start. destruct (contract st); [|done].
    destruct (txPending st); [done|].
    split_and!; session_simpl; try done.
    intros j [?|Hj%list_elem_of_singleton]%elem_of_app; [by apply Hh|done].
  - unfold resume. destruct (settle _ _) as [rest|] eqn:Hs; [|done].
    apply settle_elem in Hs as (Hi & Hsub & _).
    split_and!; session_simpl; try done.
    intros j [?|Hj%list_elem_of_singleton]%elem_of_app;
      [by apply Hh, Hsub|done].
  - unfold resume. destruct (settle _ _) as [rest|] eqn:Hs; [|done].
    apply settle_elem in Hs as (Hi & Hsub & _).
    split_and!; session_simpl; try done.
    intros j [?|Hj%list_elem_of_singleton]%elem_of_app;
      [by apply Hh, Hsub|]. by injection Hj as ->.
  - unfold resume. destruct (settle _ _) as [rest|] eqn:Hs; [|done].
    apply settle_elem in Hs as (Hi & Hsub & _).
    unfold claim_finish, refreshSupply_done.
    split_and!; session_simpl; try done.
    + intros j [->%elem_of_singleton|?]%elem_of_union; [|by apply Hc].
      split; [by apply Hh|]. by exists supply, max.
    + intros j Hj. by apply Hh, Hsub.
  - unfold resume. destruct (settle _ _) as [rest|] eqn:Hs; [|done].
    apply settle_elem in Hs as (Hi & Hsub & _).
    unfold claim_catch. split_and!; session_simpl; try done.
    intros j Hj. by apply Hh, Hsub.
Qed.

Lemma run_backed evs innerWidth : backed evs (run evs (initial innerWidth)).
Proof.
  induction evs as [|e evs IH] using rev_ind.
  - split_and!; cbn; intros i Hi; set_solver.
  - rewrite run_snoc. by apply step_backed.
Qed.

(** X11. An index is in [clicked] only if the session's own claim of it was mined
    ([tx.wait()] resolved) and the handler ran to its end; a claim that threw
    at any of its awaits marks nothing. *)
Theorem clicked_only_mined (evs : list event) (innerWidth : Z) (i : Z) :
  i ∈ clicked (run evs (initial innerWidth)) →
  ClaimMined i ∈ evs ∧ ∃ supply max, ClaimRefreshed i supply max ∈ evs.
Proof. intros Hi. by apply (run_backed evs innerWidth). Qed.

Lemma clicked_only_mined_witness :
  let evs := [WalletConnected "0xA"; Click 7; ClaimSent 7; ClaimMined 7;
              ClaimRefreshed 7 1 1000000] in
  7 ∈ clicked (run evs (initial 1280)) ∧
  ClaimMined 7 ∈ evs ∧ ∃ supply max, ClaimRefreshed 7 supply max ∈ evs.
Proof.
  intros evs.
  assert (7 ∈ clicked (run evs (initial 1280))) as H.
  { vm_compute. reflexivity. }
  split; [exact H|]. exact (clicked_only_mined evs 1280 7 H).
Defined.

(** X12. An index is in [remoteClaimedSet] only if an [isClaimed] lookup of it
    resolved with [true]; every such index, and every index with a lookup in
    flight, is below 1,000,000. *)
Theorem remote_only_confirmed (evs : list event) (innerWidth : Z) (i : Z) :
  let st := run evs (initial innerWidth) in
  (i ∈ remoteClaimedSet st → i < 1000000 ∧ LookupResolved i true ∈ evs) ∧
  (i ∈ lookups st → i < 1000000).
Proof.
  intros st. destruct (run_backed evs innerWidth) as (Hr & Hl & _).
  split; [apply Hr|apply Hl].
Qed.

Lemma remote_only_confirmed_witness :
  let evs := [Render 0 0; LookupResolved 0 true] in
  0 ∈ remoteClaimedSet (run evs (initial 1280)) ∧
  0 < 1000000 ∧ LookupResolved 0 true ∈ evs.
Proof.
  intros evs.
  assert (0 ∈ remoteClaimedSet (run evs (initial 1280))) as H.
  { vm_compute. reflexivity. }
  split; [exact H|]. exact (proj1 (remote_only_confirmed evs 1280 0) H).
Defined.

(** *** Lookups of confirmed cells *)

Lemma settle_filter {A} `{EqDecision A} (P : A → Prop) `{∀ x, Decision (P x)}
    (x : A) l rest :
  settle x l = Some rest →
  (length (filter P rest) ≤ length (filter P l))%nat.
Proof.
  revert rest. induction l as [|y l IH]; intros rest; cbn [settle]; [done|].
  case_decide as Hxy.
  - intros [= <-]. rewrite filter_cons. case_decide; cbn; lia.
  - destruct (settle x l) as [rest'|]; cbn [fmap option_fmap option_map];
      [|done].
    intros [= <-]. specialize (IH rest' eq_refl). rewrite !filter_cons.
    case_decide; cbn [length]; lia.
Qed.

Lemma step_outstanding e st i :
  i ∈ remoteClaimedSet st →
  (outstanding i (step e st) ≤ outstanding i st)%nat.
Proof.
  intros Hi.
  destruct e as [w|addr|supply max|c r|j claimed|j|j|j|j|j supply max|j at_ msg];
    cbn [step]; try done.
  - unfold Cell. destruct (1000000 <=? _); [done|]. cbn [snd].
    destruct (bool_decide (r * columns st + c ∈ remoteClaimedSet st)) eqn:Hb;
      [done|].
    apply bool_decide_eq_false in Hb. unfold truthy. cbn [negb andb].
    rewrite outstanding_app. cbn. rewrite decide_False; [cbn; lia|].
    intros E. by rewrite E in Hb.
  - destruct (settle j (lookups st)) as [rest|] eqn:Hs; [|done].
    apply (settle_filter (λ k, k = i)) in Hs.
    unfold isClaimed_then, outstanding. by destruct claimed.
  - destruct (settle j (lookups st)) as [rest|] eqn:Hs; [|done].
    by apply (settle_filter (λ k, k = i)) in Hs.
  - unfold claim_start. destruct (contract st); [|done].
    by destruct (txPending st).
  - unfold resume. by destruct (settle _ _).
  - unfold resume. by destruct (settle _ _).
  - unfold resume. by destruct (settle _ _).
  - unfold resume. by destruct (settle _ _).
Qed.

(** X13. Once an index is in [remoteClaimedSet] it is never queried again:
    whatever happens afterwards, renders of its cell included, the number of
    [isClaimed] queries outstanding for it does not grow. *)
Theorem confirmed_never_queried_again (evs : list event) (st : Session) (i : Z) :
  i ∈ remoteClaimedSet st →
  (outstanding i (run evs st) ≤ outstanding i st)%nat.
Proof.
  revert st. induction evs as [|e evs IH]; intros st Hi; [done|].
  change (run (e :: evs) st) with (run evs (step e st)).
  etrans; [apply IH|by apply step_outstanding].
  by apply (step_sets e st).
Qed.

Lemma confirmed_never_queried_again_witness :
  let st := run [Render 0 0; Render 0 0; LookupResolved 0 true] (initial 1280) in
  let evs := [Render 0 0; Resize 640; Render 0 0; Render 1 0] in
  0 ∈ remoteClaimedSet st ∧ outstanding 0 st = 1%nat ∧
  (outstanding 0 (run evs st) ≤ outstanding 0 st)%nat.
Proof.
  intros st evs.
  assert (0 ∈ remoteClaimedSet st) as H by (vm_compute; reflexivity).
  split; [exact H|]. split; [vm_compute; reflexivity|].
  exact (confirmed_never_queried_again evs st 0 H).
Defined.

Lemma one_claim_at_a_time_witness :
  let st := run [WalletConnected "0xA"; Click 7; Click 8; ClaimSent 7; Click 9]
              (initial 1280) in
  handlers st = [(7, await_wait)] ∧
  (length (handlers st) ≤ 1)%nat ∧
  (txPending st = true ↔ handlers st ≠ []) ∧
  (handlers st ≠ [] → is_Some (contract st)).
Proof.
  intros st. split; [vm_compute; reflexivity|].
  exact (one_claim_at_a_time
           [WalletConnected "0xA"; Click 7; Click 8; ClaimSent 7; Click 9] 1280).
Defined.

(** *** Connecting the wallet *)

(** X14. [connectWallet] runs to its end exactly when the chain was switched and
    both [eth_requestAccounts] and [getSigner()] resolved; then the account is
    the first one returned and the contract is bound to the signer, which is
    the state after [WalletConnected] when the two agree.  Otherwise it
    throws and the contract stays as it was.  It asks for the accounts only
    once the chain is switched, asks to add the chain only after error 4902,
    and never touches the claim state. *)
Theorem connectWallet_connects (w : wallet) (st : Session) :
  let r := connectWallet w st in
  (thrown r = None ↔
     chain_switched w ∧ (∃ accounts, requestAccounts w = resolves accounts) ∧
     ∃ s, getSigner w = resolves s) ∧
  (∀ accounts s, thrown r = None →
     requestAccounts w = resolves accounts → getSigner w = resolves s →
     account (session r) = head accounts ∧
     contract (session r) = Some (walletContract s) ∧
     (head accounts = Some s → session r = step (WalletConnected s) st)) ∧
  (thrown r ≠ None → contract (session r) = contract st) ∧
  (eth_requestAccounts ∈ requests r → chain_switched w) ∧
  (wallet_addEthereumChain ∈ requests r →
     switchChain w = rejects (Some 4902)) ∧
  clicked (session r) = clicked st ∧
  remoteClaimedSet (session r) = remoteClaimedSet st ∧
  txPending (session r) = txPending st ∧
  handlers (session r) = handlers st ∧
  lookups (session r) = lookups st.
Proof.
  destruct w as [sw ad sw2 ra gs]. unfold connectWallet, chain_switched.
  cbn [switchChain addChain switchChainAgain].
  assert (∀ sent,
    let r := connectWallet_accounts (mkWallet sw ad sw2 ra gs) sent st in
    (thrown r = None ↔ (∃ accounts, ra = resolves accounts) ∧
                       ∃ s, gs = resolves s) ∧
    (∀ accounts s, thrown r = None → ra = resolves accounts → gs = resolves s →
       account (session r) = head accounts ∧
       contract (session r) = Some (walletContract s) ∧
       (head accounts = Some s → session r = step (WalletConnected s) st)) ∧
    (thrown r ≠ None → contract (session r) = contract st) ∧
    requests r = sent ++ [eth_requestAccounts] ∧
    clicked (session r) = clicked st ∧
    remoteClaimedSet (session r) = remoteClaimedSet st ∧
    txPending (session r) = txPending st ∧
    handlers (session r) = handlers st ∧
    lookups (session r) = lookups st) as Hrest.
  { intros sent. unfold connectWallet_accounts.
    cbn [requestAccounts getSigner].
    destruct ra as [accounts|err]; [destruct gs as [s|err]|]; cbn.
    - split_and!; try done.
      + split; [eauto|done].
      + intros ? ? _ [= <-] [= <-]. split_and!; [done|done|].
        intros E. unfold setAccount_first, setContract, setAccount. cbn.
        by rewrite E.
    - split_and!; try done. split; [done|]. by intros (_ & ? & [=]).
    - split_and!; try done. split; [done|]. by intros ((? & [=]) & _). }
  destruct sw as [u|code].
  - destruct (Hrest [wallet_switchEthereumChain])
      as (Hiff & Hok & Hthrown & Hreq & ? & ? & ? & ? & ?).
    split_and!; try done.
    + rewrite Hiff. split; [intros [? ?]; split; [left; eauto|done]|tauto].
    + intros _. left. eauto.
    + rewrite Hreq.
      intros [Hin|Hin%list_elem_of_singleton]%elem_of_app; [|done].
      by apply list_elem_of_singleton in Hin.
  - case_decide as Hcode; [subst code|].
    + destruct ad as [u|err]; [destruct sw2 as [u2|err]|].
      * destruct (Hrest [wallet_switchEthereumChain; wallet_addEthereumChain;
                         wallet_switchEthereumChain])
          as (Hiff & Hok & Hthrown & Hreq & ? & ? & ? & ? & ?).
        split_and!; try done.
        -- rewrite Hiff. split; [|tauto].
           intros [? ?]. split; [right; eauto|done].
        -- intros _. right. eauto.
      * cbn. split_and!; try done.
        -- split; [done|]. intros ([(? & [=])|(_ & _ & ? & [=])] & _).
        -- intros Hin. repeat (apply elem_of_cons in Hin as [[=]|Hin]).
           by apply elem_of_nil in Hin.
      * cbn. split_and!; try done.
        -- split; [done|]. intros ([(? & [=])|(_ & (? & [=]) & _)] & _).
        -- intros Hin. repeat (apply elem_of_cons in Hin as [[=]|Hin]).
           by apply elem_of_nil in Hin.
    + cbn. split_and!; try done.
      * split; [done|]. intros ([(? & [=])|([= ->] & _)] & _). done.
      * intros Hin. repeat (apply elem_of_cons in Hin as [[=]|Hin]).
        by apply elem_of_nil in Hin.
      * intros Hin. repeat (apply elem_of_cons in Hin as [[=]|Hin]).
        by apply elem_of_nil in Hin.
Qed.

Lemma connectWallet_connects_witness :
  let w := mkWallet (rejects (Some 4902)) (resolves tt) (resolves tt)
             (resolves ["0xA"; "0xB"]) (resolves "0xA") in
  let r := connectWallet w (initial 1280) in
  requests r = [wallet_switchEthereumChain; wallet_addEthereumChain;
                wallet_switchEthereumChain; eth_requestAccounts] ∧
  thrown r = None ∧
  account (session r) = Some "0xA" ∧
  contract (session r) = Some (walletContract "0xA") ∧
  session r = step (WalletConnected "0xA") (initial 1280).
Proof.
  intros w r.
  assert (thrown r = None) as Ht by (vm_compute; reflexivity).
  split; [vm_compute; reflexivity|]. split; [exact Ht|].
  pose proof (proj1 (proj2 (connectWallet_connects w (initial 1280)))
                ["0xA"; "0xB"] "0xA" Ht eq_refl eq_refl) as (Ha & Hc & Hs).
  split; [exact Ha|]. split; [exact Hc|]. apply Hs. reflexivity.
Defined.

(** X15. When [getSigner()] rejects after the accounts were returned, the account
    is shown as connected and no contract is set: in a session that had none,
    clicks on cells go on doing nothing. *)
Theorem account_without_contract (w : wallet) (st : Session)
    (accounts : list string) (err : option Z) (cellIndex : Z) :
  chain_switched w → requestAccounts w = resolves accounts →
  getSigner w = rejects err → contract st = None →
  let st' := session (connectWallet w st) in
  thrown (connectWallet w st) = Some err ∧
  account st' = head accounts ∧ contract st' = None ∧
  step (Click cellIndex) st' = st'.
Proof.
  intros Hsw Hra Hgs Hc.
  assert (connectWallet w st
          = mkConnected (requests (connectWallet w st)) (Some err)
              (setAccount_first accounts st)) as E.
  { unfold connectWallet, connectWallet_accounts.
    destruct Hsw as [(u & ->)|(-> & (u & ->) & (u' & ->))];
      [|rewrite decide_True by done]; by rewrite Hra, Hgs. }
  rewrite E. cbn. split_and!; try done.
  unfold claim_start. cbn. by rewrite Hc.
Qed.

Lemma account_without_contract_witness :
  let w := mkWallet (resolves tt) (resolves tt) (resolves tt)
             (resolves ["0xA"]) (rejects None) in
  let st' := session (connectWallet w (initial 1280)) in
  account st' = Some "0xA" ∧ contract st' = None ∧
  step (Click 7) st' = st'.
Proof.
  intros w st'.
  assert (chain_switched w) as Hsw by (left; exists tt; reflexivity).
  pose proof (account_without_contract w (initial 1280) ["0xA"] None 7
                Hsw eq_refl eq_refl eq_refl) as (_ & Ha & Hc & Hk).
  split; [exact Ha|]. split; [exact Hc|exact Hk].
Defined.

(** *** Errors shown to the user *)

Lemma step_alerts e st msg :
  msg ∈ alerts (step e st) →
  msg ∈ alerts st ∨ ∃ i at_, e = ClaimThrew i at_ msg.
Proof.
  destruct e as [w|addr|supply max|c r|j claimed|j|j|j|j|j supply max|j at_ m];
    cbn [step]; try (by left).
  - unfold Cell. destruct (1000000 <=? _); [by left|]. cbn [snd].
    destruct (negb _ && _); by left.
  - destruct (settle j (lookups st)); [|by left].
    unfold isClaimed_then. destruct claimed; by left.
  - destruct (settle j (lookups st)); by left.
  - unfold claim_start. destruct (contract st); [|by left].
    destruct (txPending st); by left.
  - unfold resume. destruct (settle _ _); by left.
  - unfold resume. destruct (settle _ _); by left.
  - unfold resume. destruct (settle _ _); by left.
  - unfold resume. destruct (settle _ _); [|by left].
    unfold claim_catch, alert. cbn.
    intros [?|Hm%list_elem_of_singleton]%elem_of_app; [by left|].
    subst msg. right. eauto.
Qed.

(** X16. Only a [claim] handler that threw shows an error: every message passed to
    [alert] in a session is the message of a [claim] that failed at one of its
    awaits; an [isClaimed] lookup that rejects, or a supply read outside a
    claim, shows nothing. *)
Theorem alerts_only_from_claims (evs : list event) (innerWidth : Z)
    (message : string) :
  message ∈ alerts (run evs (initial innerWidth)) →
  ∃ cellIndex at_, ClaimThrew cellIndex at_ message ∈ evs.
Proof.
  induction evs as [|e evs IH] using rev_ind.
  - cbn. by intros ?%elem_of_nil.
  - rewrite run_snoc. intros [H|(i & at_ & ->)]%step_alerts.
    + destruct (IH H) as (i & at_ & ?). exists i, at_.
      apply elem_of_app. by left.
    + exists i, at_. apply last_event.
Qed.

Lemma alerts_only_from_claims_witness :
  let evs := [WalletConnected "0xA"; Render 0 0; LookupRejected 0; Click 7;
              ClaimThrew 7 await_claim "user rejected"] in
  alerts (run evs (initial 1280)) = ["user rejected"] ∧
  ∃ cellIndex at_, ClaimThrew cellIndex at_ "user rejected" ∈ evs.
Proof.
  intros evs. split; [vm_compute; reflexivity|].
  apply (alerts_only_from_claims evs 1280 "user rejected").
  vm_compute. left.
Defined.

End AppSpec.
